(** * Operator translation engine of torch_tvm (src/torch_tvm/operators.cpp)

    A shallow embedding of the operator table that lowers PyTorch JIT nodes
    to Relay expressions, of the constant / optional-value encoding helpers
    the rules share, and of the lazy schedule registration, followed by the
    properties proved about them. *)

From Stdlib Require Import ZArith Lia.
From stdpp Require Import base option list strings pretty gmap.

Local Open Scope Z_scope.

(** ** Outcomes of a C++ call

    A call either returns, or leaves through one of the failure channels the
    source uses.  [TORCH_INTERNAL_ASSERT] and [TORCH_CHECK] are kept apart
    because the rules use them for different classes of failure.  [Undefined]
    stands for what C++ leaves undefined: dereferencing the null result of a
    failed [as<...>()] cast, indexing a [tvm::Array] or a shape past its end,
    reading more bytes than a buffer holds. *)
Inductive result (A : Type) : Type :=
  | Ok (a : A)
  | InternalAssert
  | CheckFailed (msg : string)
  | OutOfRange
  | Undefined.
Arguments Ok {A} a.
Arguments InternalAssert {A}.
Arguments CheckFailed {A} msg.
Arguments OutOfRange {A}.
Arguments Undefined {A}.

#[global] Instance result_ret : MRet result := λ A a, Ok a.
#[global] Instance result_bind : MBind result := λ A B f m,
  match m with
  | Ok a => f a
  | InternalAssert => InternalAssert
  | CheckFailed msg => CheckFailed msg
  | OutOfRange => OutOfRange
  | Undefined => Undefined
  end.
#[global] Instance result_fmap : FMap result := λ A B f m, a ← m; mret (f a).

Definition TORCH_INTERNAL_ASSERT (cond : bool) : result unit :=
  if cond then Ok tt else InternalAssert.

Definition TORCH_CHECK (cond : bool) (msg : string) : result unit :=
  if cond then Ok tt else CheckFailed msg.

(** Dereferencing a pointer that may be null. *)
Definition deref {A} (p : option A) : result A :=
  match p with Some a => Ok a | None => Undefined end.

(** [v[i]] on a [tvm::Array] (a [std::vector] underneath): no bounds check. *)
Definition at_ {A} (v : list A) (i : nat) : result A := deref (v !! i).

(** ** Raw tensor storage *)

Definition byte_val (b : Byte.byte) : Z := Z.of_N (Byte.to_N b).

Definition byte_of_Z (z : Z) : Byte.byte :=
  default Byte.x00 (Byte.of_N (Z.to_N (z mod 256))).

(** Little-endian value of a run of bytes. *)
Fixpoint le_word (bs : list Byte.byte) : Z :=
  match bs with
  | [] => 0
  | b :: bs => byte_val b + 256 * le_word bs
  end.

(** The [n] low bytes of [v], least significant first. *)
Fixpoint le_bytes (n : nat) (v : Z) : list Byte.byte :=
  match n with
  | O => []
  | S n => byte_of_Z v :: le_bytes n (v / 256)
  end.

(** [static_cast<T*>(p)[0]] for a [T] of [n] bytes: the first [n] bytes at
    [p]; nothing is defined when the buffer is shorter than that. *)
Definition load (n : nat) (mem : list Byte.byte) : option Z :=
  if decide (n ≤ length mem)%nat then Some (le_word (take n mem)) else None.

Definition wrap_signed (bits : Z) (v : Z) : Z :=
  if decide (v < 2 ^ (bits - 1)) then v else v - 2 ^ bits.

(** The element types the source reads a constant as. *)
Definition as_uint64 (mem : list Byte.byte) : option Z := load 8 mem.
Definition as_int (mem : list Byte.byte) : option Z := wrap_signed 32 <$> load 4 mem.
Definition as_bool (mem : list Byte.byte) : option bool :=
  (λ v, negb (v =? 0)) <$> load 1 mem.
(** A [float] is kept as its IEEE-754 binary32 bit pattern. *)
Definition as_float (mem : list Byte.byte) : option Z := load 4 mem.

Inductive DLDataTypeCode := kDLInt | kDLUInt | kDLFloat.

Record DLDataType := { code : DLDataTypeCode; bits : Z; lanes : Z }.

Definition String2TVMType (s : string) : DLDataType :=
  if decide (s = "float32") then {| code := kDLFloat; bits := 32; lanes := 1 |}
  else if decide (s = "float64") then {| code := kDLFloat; bits := 64; lanes := 1 |}
  else if decide (s = "int32") then {| code := kDLInt; bits := 32; lanes := 1 |}
  else if decide (s = "int64") then {| code := kDLInt; bits := 64; lanes := 1 |}
  else if decide (s = "uint64") then {| code := kDLUInt; bits := 64; lanes := 1 |}
  else if decide (s = "bool") then {| code := kDLUInt; bits := 1; lanes := 1 |}
  else {| code := kDLFloat; bits := 32; lanes := 1 |}.

(** [tvm::runtime::NDArray]: [shape] has [ndim] entries, [data] is the
    untyped buffer behind [data->data]. *)
Record NDArray := {
  shape : list Z;
  dtype : DLDataType;
  data : list Byte.byte
}.

(** [ConstantNode::is_scalar]: [data->ndim == 0]. *)
Definition is_scalar (c : NDArray) : bool := bool_decide (shape c = []).

(** ** Relay expressions *)

(** A dimension or an integer attribute value. *)
Inductive IndexExpr :=
  | IntImm (v : Z)
  | SymbolicDim (name : string).

Inductive RelayType :=
  | NullType
  | TensorType (shape : list IndexExpr) (dtype : DLDataType)
  | OtherType.

Record Conv2DAttrs := {
  conv_strides : list IndexExpr;
  conv_padding : list IndexExpr;
  conv_dilation : list IndexExpr;
  conv_groups : Z;
  conv_kernel_size : option (list IndexExpr);
  conv_data_layout : string;
  conv_kernel_layout : string
}.

Record BatchNormAttrs := {
  bn_axis : Z;
  bn_epsilon : Z;
  bn_center : bool;
  bn_scale : bool
}.

Record AvgPool2DAttrs := {
  avg_pool_size : list IndexExpr;
  avg_strides : list IndexExpr;
  avg_padding : list IndexExpr;
  avg_layout : string;
  avg_ceil_mode : bool;
  avg_count_include_pad : bool
}.

Record MaxPool2DAttrs := {
  max_pool_size : list IndexExpr;
  max_strides : list IndexExpr;
  max_padding : list IndexExpr;
  max_layout : string;
  max_ceil_mode : bool
}.

Record AdaptivePool2DAttrs := {
  adaptive_output_size : list IndexExpr;
  adaptive_layout : string
}.

Record ReshapeAttrs := {
  newshape : list Z;
  reverse : bool
}.

(** [tvm::Attrs]: null, or one of the attribute nodes the rules build. *)
Inductive Attrs :=
  | NullAttrs
  | AttrsConv2D (a : Conv2DAttrs)
  | AttrsBiasAdd (axis : Z)
  | AttrsBatchNorm (a : BatchNormAttrs)
  | AttrsAvgPool2D (a : AvgPool2DAttrs)
  | AttrsMaxPool2D (a : MaxPool2DAttrs)
  | AttrsAdaptivePool2D (a : AdaptivePool2DAttrs)
  | AttrsReshape (a : ReshapeAttrs)
  | AttrsDense.

(** [tvm::relay::Expr] is a nullable reference to one of the node kinds. An
    operator is referred to by the name it is fetched under ([Op::Get]). *)
#[warnings="-register-all"]
Inductive Expr :=
  | NullExpr
  | Constant (c : NDArray)
  | Var (name : string) (type_annotation : RelayType)
  | Call (op : string) (args : list Expr) (attrs : Attrs)
  | Tuple (fields : list Expr)
  | TupleGetItem (tuple : Expr) (index : Z).

(** ** Source graph nodes *)

Abbreviation Symbol := string.

Inductive JitType :=
  | DimensionedTensorType (dim : Z)
  | OtherJitType.

Record Value := { type : JitType }.

Record Node := {
  kind : Symbol;
  inputs_ : list Value;
  outputs : list Value
}.

(** [Node::input(i)] goes through [std::vector::at]. *)
Definition input (node : Node) (i : nat) : result Value :=
  match inputs_ node !! i with Some v => Ok v | None => OutOfRange end.

(** ** Constant / optional-value encoding *)

Definition as_ConstantNode (e : Expr) : option NDArray :=
  match e with Constant c => Some c | _ => None end.

Definition as_TupleNode (e : Expr) : option (list Expr) :=
  match e with Tuple fields => Some fields | _ => None end.

Definition isConstant (e : Expr) : bool :=
  bool_decide (is_Some (as_ConstantNode e)).

(** [relayToConstant<T>]; the reader [T] is one of [as_bool], [as_int],
    [as_float]. *)
Definition relayToConstant {T} (rd : list Byte.byte → option T) (e : Expr) : result T :=
  let c := as_ConstantNode e in
  TORCH_INTERNAL_ASSERT (bool_decide (is_Some c));;
  c ← deref c;
  TORCH_INTERNAL_ASSERT (is_scalar c);;
  deref (rd (data c)).

Definition getNoneSentinel : Z := 0xe4fa3adecabcf036.

Definition relayIsNone (e : Expr) : result bool :=
  if negb (isConstant e) then Ok false
  else
    c ← deref (as_ConstantNode e);
    if negb (is_scalar c) then Ok false
    else
      val ← deref (as_uint64 (data c));
      Ok (val =? getNoneSentinel).

(** [relayToArray<T>]: every element goes through an [int]. *)
Definition relayToArray {T} (of_int : Z → T) (e : Expr) : result (list T) :=
  let t := as_TupleNode e in
  fields ← deref t;
  mapM (λ c, elem ← relayToConstant as_int c; mret (of_int elem)) fields.

(** ** Floating point

    A [float] travels as its binary32 bit pattern; a comparison against a
    [double] literal widens it (exactly) and compares the two reals.  Finite
    values are dyadic rationals [m * 2^e]. *)
Inductive float_val :=
  | FNaN
  | FInf (neg : bool)
  | FFin (m e : Z).

Definition decode_binary32 (b : Z) : float_val :=
  let neg := Z.testbit b 31 in
  let ex := Z.land (Z.shiftr b 23) 0xff in
  let man := Z.land b 0x7fffff in
  let sgn m := if neg then - m else m in
  if ex =? 255 then (if man =? 0 then FInf neg else FNaN)
  else if ex =? 0 then FFin (sgn man) (-149)
  else FFin (sgn (man + 2 ^ 23)) (ex - 150).

(** The floating point number of [prec] significant bits nearest to [p / q]
    (both positive), ties to even, as mantissa and exponent: what a decimal
    literal denotes, and what narrowing a [double] to a [float] yields,
    away from the overflow and subnormal ranges. *)
Definition round_nearest_even (prec p q : Z) : Z * Z :=
  let e0 := Z.log2 p - Z.log2 q - prec in
  let scaled e := if decide (0 ≤ e) then (p, q * 2 ^ e) else (p * 2 ^ (- e), q) in
  let e := if decide (2 ^ prec ≤ (scaled e0).1 / (scaled e0).2) then e0 + 1 else e0 in
  let P := (scaled e).1 in
  let Q := (scaled e).2 in
  let n := P / Q in
  let r := P mod Q in
  let m := if decide (2 * r < Q) then n
           else if decide (Q < 2 * r) then n + 1
           else if Z.even n then n else n + 1 in
  if decide (m = 2 ^ prec) then (2 ^ (prec - 1), e + 1) else (m, e).

(** Bit pattern of the positive normal binary32 number [m * 2^e]. *)
Definition binary32_bits (me : Z * Z) : Z :=
  Z.lor (Z.shiftl (me.2 + 150) 23) (me.1 - 2 ^ 23).

(** [m1 * 2^e1 < m2 * 2^e2] *)
Definition dyadic_ltb (m1 e1 m2 e2 : Z) : bool :=
  let e := Z.min e1 e2 in
  m1 * 2 ^ (e1 - e) <? m2 * 2 ^ (e2 - e).

(** [d < c] and [d > c] for a [float] [d] and a [double] [c = m * 2^e]; a
    comparison with a NaN is false. *)
Definition float_lt (d : Z) (c : Z * Z) : bool :=
  match decode_binary32 d with
  | FNaN => false
  | FInf neg => neg
  | FFin m e => dyadic_ltb m e c.1 c.2
  end.

Definition float_gt (d : Z) (c : Z * Z) : bool :=
  match decode_binary32 d with
  | FNaN => false
  | FInf neg => negb neg
  | FFin m e => dyadic_ltb c.1 c.2 m e
  end.

(** The literals [1e-7] and [-1e-7] (of type [double]). *)
Definition lit_1e_7 : Z * Z := round_nearest_even 53 1 (10 ^ 7).
Definition lit_neg_1e_7 : Z * Z := (- lit_1e_7.1, lit_1e_7.2).

(** [|m * 2^e| < 10^-7] over the reals, for [e >= -149], stated on
    integers by scaling both sides with [2^149]. *)
Definition within_1e_7 (m e : Z) : Prop :=
  Z.abs m * 2 ^ (e + 149) * 10 ^ 7 < 2 ^ 149.

(** [1337e10] stored into a [float]: the literal is the integer
    13370000000000, exact as a [double], then narrowed. *)
Definition float_1337e10 : Z := binary32_bits (round_nearest_even 24 (1337 * 10 ^ 10) 1).

(** ** The translation rules

    One definition per lambda of the table handed to [reg], in the order of
    the source. *)

Abbreviation TVMOpFunctor := (Node → list Expr → result Expr).

Definition aten_add : TVMOpFunctor := λ node inputs,
  let op := "add" in
  TORCH_INTERNAL_ASSERT (bool_decide (length inputs = 3%nat));;
  in0 ← at_ inputs 0;
  in1 ← at_ inputs 1;
  let add_inputs := [in0; in1] in
  in2 ← at_ inputs 2;
  let value := as_ConstantNode in2 in
  value ← deref value;
  cond ← (if is_scalar value
          then v ← deref (as_int (data value)); mret (v =? 1)
          else mret false);
  TORCH_INTERNAL_ASSERT cond;;
  let out := Call op add_inputs NullAttrs in
  mret out.

Definition aten_add_ : TVMOpFunctor := λ node inputs,
  let op := "add" in
  TORCH_INTERNAL_ASSERT (bool_decide (length inputs = 3%nat));;
  in0 ← at_ inputs 0;
  in1 ← at_ inputs 1;
  let add_inputs := [in0; in1] in
  in2 ← at_ inputs 2;
  let value := as_ConstantNode in2 in
  value ← deref value;
  cond ← (if is_scalar value
          then v ← deref (as_int (data value)); mret (v =? 1)
          else mret false);
  TORCH_INTERNAL_ASSERT cond;;
  let out := Call op add_inputs NullAttrs in
  mret out.

(** The kernel size is filled in only when the weight is a variable, whose
    annotation must then be a tensor type. *)
Definition kernel_size_of (weight : Expr) : result (option (list IndexExpr)) :=
  match weight with
  | Var _ type_annotation =>
      match type_annotation with
      | TensorType shape _ =>
          s2 ← at_ shape 2;
          s3 ← at_ shape 3;
          mret (Some [s2; s3])
      | _ => InternalAssert
      end
  | _ => mret None
  end.

Definition aten__convolution : TVMOpFunctor := λ node inputs,
  is_transpose ← at_ inputs 6 ≫= relayToConstant as_bool;
  let op := if is_transpose : bool then "nn.conv2d_transpose" else "nn.conv2d" in
  in0 ← at_ inputs 0;
  in1 ← at_ inputs 1;
  let new_inputs := [in0; in1] in
  groups ← at_ inputs 8 ≫= relayToConstant as_int;
  kernel_size ← kernel_size_of in1;
  strides ← at_ inputs 3 ≫= relayToArray IntImm;
  padding ← at_ inputs 4 ≫= relayToArray IntImm;
  dilation ← at_ inputs 5 ≫= relayToArray IntImm;
  let conv_attrs :=
    {| conv_strides := strides; conv_padding := padding;
       conv_dilation := dilation; conv_groups := groups;
       conv_kernel_size := kernel_size;
       conv_data_layout := "NCHW"; conv_kernel_layout := "OIHW" |} in
  let out := Call op new_inputs (AttrsConv2D conv_attrs) in
  in2 ← at_ inputs 2;
  let bias_is_none := as_ConstantNode in2 in
  if negb (bool_decide (is_Some bias_is_none))
  then mret (Call "nn.bias_add" [out; in2] (AttrsBiasAdd 1))
  else mret out.

(** The scalar [float32] array the batch-norm rule fills with [1337e10]. *)
Definition placeholder_array : NDArray :=
  {| shape := []; dtype := String2TVMType "float32";
     data := le_bytes 4 float_1337e10 |}.

Definition aten_batch_norm : TVMOpFunctor := λ node inputs,
  let op := "nn.batch_norm" in
  TORCH_CHECK (bool_decide (length inputs = 9%nat))
    ("batch_norm received " +:+ pretty (length inputs) +:+ " inputs");;
  training ← at_ inputs 5 ≫= relayToConstant as_bool;
  TORCH_CHECK (bool_decide (training = false)) "batch_norm is in training mode";;
  eps ← at_ inputs 7 ≫= relayToConstant as_float;
  let v := Constant placeholder_array in
  let broadcast := "broadcast_to_like" in
  in3 ← at_ inputs 3;
  let weight := Call broadcast [v; in3] NullAttrs in
  let bias := Call broadcast [v; in3] NullAttrs in
  in1 ← at_ inputs 1;
  none1 ← relayIsNone in1;
  let scale := negb none1 in
  let weight := if negb none1 then in1 else weight in
  in2 ← at_ inputs 2;
  none2 ← relayIsNone in2;
  let center := negb none2 in
  let bias := if negb none2 then in2 else bias in
  in0 ← at_ inputs 0;
  in4 ← at_ inputs 4;
  let bn_inputs := [in0; weight; bias; in3; in4] in
  let attrs :=
    {| bn_axis := 1; bn_epsilon := eps; bn_center := center; bn_scale := scale |} in
  let out := Call op bn_inputs (AttrsBatchNorm attrs) in
  TORCH_INTERNAL_ASSERT (bool_decide (length (outputs node) = 1%nat));;
  if bool_decide (length (outputs node) = 2%nat) then mret out
  else mret (TupleGetItem out 0).

Definition aten_relu_ : TVMOpFunctor := λ node inputs,
  mret (Call "nn.relu" inputs NullAttrs).

Definition aten_relu : TVMOpFunctor := λ node inputs,
  mret (Call "nn.relu" inputs NullAttrs).

Definition aten_threshold_ : TVMOpFunctor := λ node inputs,
  none0 ← at_ inputs 0 ≫= relayIsNone;
  TORCH_CHECK (negb none0) "";;
  none1 ← at_ inputs 1 ≫= relayIsNone;
  TORCH_CHECK (negb none1) "";;
  none2 ← at_ inputs 2 ≫= relayIsNone;
  TORCH_CHECK (negb none2) "";;
  d ← at_ inputs 1 ≫= relayToConstant as_float;
  TORCH_CHECK (float_lt d lit_1e_7)
    "aten::threshold_ only supported for threshold 0, got";;
  TORCH_CHECK (float_gt d lit_neg_1e_7)
    "aten::threshold_ only supported for threshold 0, got";;
  d ← at_ inputs 2 ≫= relayToConstant as_float;
  TORCH_CHECK (float_lt d lit_1e_7)
    "aten::threshold_ only supported for value 0, got";;
  TORCH_CHECK (float_gt d lit_neg_1e_7)
    "aten::threshold_ only supported for value 0, got";;
  in0 ← at_ inputs 0;
  mret (Call "nn.relu" [in0] NullAttrs).

Definition aten_mul : TVMOpFunctor := λ node inputs,
  mret (Call "multiply" inputs NullAttrs).

Definition aten_avg_pool2d : TVMOpFunctor := λ node inputs,
  let op := "nn.avg_pool2d" in
  pool_size ← at_ inputs 1 ≫= relayToArray IntImm;
  strides ← at_ inputs 2 ≫= relayToArray IntImm;
  let strides' :=
    if bool_decide (length strides = 0%nat) then pool_size else strides in
  padding ← at_ inputs 3 ≫= relayToArray IntImm;
  ceil_mode ← at_ inputs 4 ≫= relayToConstant as_bool;
  count_include_pad ← at_ inputs 5 ≫= relayToConstant as_bool;
  let pool_attrs :=
    {| avg_pool_size := pool_size; avg_strides := strides';
       avg_padding := padding; avg_layout := "NCHW";
       avg_ceil_mode := ceil_mode;
       avg_count_include_pad := count_include_pad |} in
  in0 ← at_ inputs 0;
  mret (Call op [in0] (AttrsAvgPool2D pool_attrs)).

Definition aten_adaptive_avg_pool2d : TVMOpFunctor := λ node inputs,
  let op := "contrib.adaptive_avg_pool2d" in
  output_size ← at_ inputs 1 ≫= relayToArray IntImm;
  let pool_attrs :=
    {| adaptive_output_size := output_size; adaptive_layout := "NCHW" |} in
  in0 ← at_ inputs 0;
  mret (Call op [in0] (AttrsAdaptivePool2D pool_attrs)).

Definition aten_max_pool2d : TVMOpFunctor := λ node inputs,
  pool_size ← at_ inputs 1 ≫= relayToArray IntImm;
  strides ← at_ inputs 2 ≫= relayToArray IntImm;
  let strides' :=
    if bool_decide (length strides = 0%nat) then pool_size else strides in
  padding ← at_ inputs 3 ≫= relayToArray IntImm;
  ceil_mode ← at_ inputs 5 ≫= relayToConstant as_bool;
  let pool_attrs :=
    {| max_pool_size := pool_size; max_strides := strides';
       max_padding := padding; max_layout := "NCHW";
       max_ceil_mode := ceil_mode |} in
  let op := "nn.max_pool2d" in
  in0 ← at_ inputs 0;
  mret (Call op [in0] (AttrsMaxPool2D pool_attrs)).

Definition reshape_warning : string :=
  "WARNING: reshape with -1 as the first value has known incompatibility with PyTorch semantics.".

(** The reshape rule also writes to [std::cerr]; the lines written come
    back next to the expression. *)
Definition aten_reshape_io (node : Node) (inputs : list Expr)
    : result (list string * Expr) :=
  let op := "reshape" in
  newshape ← at_ inputs 1 ≫= relayToArray id;
  TORCH_INTERNAL_ASSERT (bool_decide (0 < length newshape)%nat);;
  first ← at_ newshape 0;
  let cerr := if bool_decide (first ≠ -1) then [reshape_warning] else [] in
  let attrs := {| newshape := newshape; reverse := false |} in
  in0 ← at_ inputs 0;
  mret (cerr, Call op [in0] (AttrsReshape attrs)).

Definition aten_reshape : TVMOpFunctor := λ node inputs,
  snd <$> aten_reshape_io node inputs.

Definition aten_linear : TVMOpFunctor := λ node inputs,
  input0 ← input node 0;
  match type input0 with
  | DimensionedTensorType n_dim =>
      TORCH_CHECK (bool_decide (n_dim = 2))
        "WARNING: relay does not support dense operation on inputs more than 2 dim"
  | OtherJitType => mret tt
  end;;
  in0 ← at_ inputs 0;
  in1 ← at_ inputs 1;
  let out := Call "nn.dense" [in0; in1] AttrsDense in
  none2 ← at_ inputs 2 ≫= relayIsNone;
  if negb none2
  then
    in2 ← at_ inputs 2;
    mret (Call "nn.bias_add" [out; in2] (AttrsBiasAdd 1))
  else mret out.

(** ** The registries *)

Record TVMOpMap := {
  sym : Symbol;
  fn : TVMOpFunctor;
  name : string
}.

(** The table [reg] is built from. *)
Definition reg_ops : list TVMOpMap := [
  {| sym := "aten::add"; fn := aten_add; name := "" |};
  {| sym := "aten::add_"; fn := aten_add_; name := "" |};
  {| sym := "aten::_convolution"; fn := aten__convolution; name := "" |};
  {| sym := "aten::batch_norm"; fn := aten_batch_norm; name := "" |};
  {| sym := "aten::relu_"; fn := aten_relu_; name := "" |};
  {| sym := "aten::relu"; fn := aten_relu; name := "relu" |};
  {| sym := "aten::threshold_"; fn := aten_threshold_; name := "" |};
  {| sym := "aten::mul"; fn := aten_mul; name := "" |};
  {| sym := "aten::avg_pool2d"; fn := aten_avg_pool2d; name := "" |};
  {| sym := "aten::adaptive_avg_pool2d"; fn := aten_adaptive_avg_pool2d; name := "" |};
  {| sym := "aten::max_pool2d"; fn := aten_max_pool2d; name := "" |};
  {| sym := "aten::reshape"; fn := aten_reshape; name := "" |};
  {| sym := "aten::linear"; fn := aten_linear; name := "" |}
].

(** A scheduling strategy is a packed function of the TVM runtime; the
    constructor stored for an operator looks it up there when called. *)
Inductive PackedFunc := PackedFuncRef (global_name : string).

Abbreviation TVMScheduleFunctor := (gmap string PackedFunc → option PackedFunc).

(** One invocation of [relay.op._Register]: operator, attribute key,
    value, priority. *)
Record RegisterCall := {
  call_op : string;
  call_attr : string;
  call_value : PackedFunc;
  call_plevel : Z
}.

(** The process-wide state the functions below touch: the two maps behind
    [getTVMScheduleMap()] and [getTVMOperatorMap()], the runtime's function
    registry, and the registrations the target compiler has received. *)
Record Process := {
  getTVMScheduleMap : gmap string TVMScheduleFunctor;
  getTVMOperatorMap : gmap Symbol TVMOpFunctor;
  Registry : gmap string PackedFunc;
  op_attrs : list RegisterCall
}.

(** The operator-exposure part of the constructor (entries with a
    [name]) only adds operators to the host framework's registry and
    graphs to a private list; none of that is read back here. *)
Definition RegisterTVMOperator (ops : list TVMOpMap) (p : Process) : Process :=
  {| getTVMScheduleMap := getTVMScheduleMap p;
     getTVMOperatorMap :=
       foldl (λ map op, <[sym op := fn op]> map) (getTVMOperatorMap p) ops;
     Registry := Registry p;
     op_attrs := op_attrs p |}.

Definition RegisterTVMOperatorSchedule
    (scheds : list (string * TVMScheduleFunctor)) (p : Process) : Process :=
  {| getTVMScheduleMap :=
       foldl (λ map pair,
                let name := pair.1 in
                let sched_f := pair.2 in
                <[name := sched_f]> map) (getTVMScheduleMap p) scheds;
     getTVMOperatorMap := getTVMOperatorMap p;
     Registry := Registry p;
     op_attrs := op_attrs p |}.

Definition registerSchedule (name : string) (p : Process) : result Process :=
  TORCH_INTERNAL_ASSERT (bool_decide (is_Some (getTVMScheduleMap p !! name)));;
  sched_f ← deref (getTVMScheduleMap p !! name);
  let reg := Registry p !! "relay.op._Register" in
  TORCH_INTERNAL_ASSERT (bool_decide (is_Some reg));;
  let sched := sched_f (Registry p) in
  match sched with
  | Some sched =>
      mret {| getTVMScheduleMap := <[name := λ _, None]> (getTVMScheduleMap p);
              getTVMOperatorMap := getTVMOperatorMap p;
              Registry := Registry p;
              op_attrs := op_attrs p ++
                [{| call_op := name; call_attr := "FTVMSchedule";
                    call_value := sched; call_plevel := 10 |}] |}
  | None => mret p
  end.

Definition isSupported (p : Process) (node : Node) : bool :=
  let map := getTVMOperatorMap p in
  bool_decide (is_Some (map !! kind node)).

Definition getOperator (p : Process) (node : Node) (inputs : list Expr) : result Expr :=
  TORCH_INTERNAL_ASSERT (isSupported p node);;
  rule ← deref (getTVMOperatorMap p !! kind node);
  rule node inputs.

(** The state once the static initialiser [reg] has run in a fresh process. *)
Definition empty_process : Process :=
  {| getTVMScheduleMap := ∅; getTVMOperatorMap := ∅; Registry := ∅; op_attrs := [] |}.

Definition reg : Process := RegisterTVMOperator reg_ops empty_process.

(** ** Sample values

    Scalars as the surrounding compiler builds them, and the inputs of the
    nodes the rules are tried on.  [scalar_of] is a
    zero-dimensional array of the given element type holding one value. *)
Definition scalar_of (ty : string) (nbytes : nat) (v : Z) : NDArray :=
  {| shape := []; dtype := String2TVMType ty; data := le_bytes nbytes v |}.

Definition int32_scalar (v : Z) : Expr := Constant (scalar_of "int32" 4 v).
Definition int64_scalar (v : Z) : Expr := Constant (scalar_of "int64" 8 v).
Definition uint64_scalar (v : Z) : Expr := Constant (scalar_of "uint64" 8 v).
Definition bool_scalar (b : bool) : Expr := Constant (scalar_of "bool" 1 (if b then 1 else 0)).
Definition float64_scalar (bits : Z) : Expr := Constant (scalar_of "float64" 8 bits).
Definition int_tuple (vs : list Z) : Expr := Tuple (int32_scalar <$> vs).

(** The signed 64-bit integer a scalar constant holds. *)
Definition as_int64_value (e : Expr) : option Z :=
  c ← as_ConstantNode e;
  if is_scalar c then wrap_signed 64 <$> load 8 (data c) else None.

(** Inputs of a batch-norm node in the order of the operator's schema:
    input, weight, bias, running mean, running variance, training,
    momentum, eps, cudnn_enabled. *)
Definition batch_norm_inputs (weight bias : Expr) (training : bool) : list Expr :=
  [Var "x" NullType; weight; bias;
   Var "running_mean" NullType; Var "running_var" NullType;
   bool_scalar training;
   Constant (scalar_of "float32" 4 0x3dcccccd);
   Constant (scalar_of "float32" 4 0x3727c5ac);
   bool_scalar true].

Definition batch_norm_node (n_outputs : nat) : Node :=
  {| kind := "aten::batch_norm"; inputs_ := [];
     outputs := replicate n_outputs {| type := OtherJitType |} |}.

(** Inputs of a pooling node: input, kernel size, stride, padding, then
    for [avg_pool2d] ceil_mode and count_include_pad, for [max_pool2d]
    dilation and ceil_mode. *)
Definition avg_pool2d_inputs (stride : list Z) : list Expr :=
  [Var "x" NullType; int_tuple [3; 3]; int_tuple stride; int_tuple [0; 0];
   bool_scalar false; bool_scalar true].

Definition max_pool2d_inputs (stride : list Z) : list Expr :=
  [Var "x" NullType; int_tuple [3; 3]; int_tuple stride; int_tuple [0; 0];
   int_tuple [1; 1]; bool_scalar false].

Definition pool_node (k : Symbol) : Node :=
  {| kind := k; inputs_ := []; outputs := [{| type := OtherJitType |}] |}.

Definition add_node (k : Symbol) : Node :=
  {| kind := k; inputs_ := []; outputs := [{| type := OtherJitType |}] |}.

(** A [float32] scalar as [NDArray::Empty({}, float32)] holds it: four
    bytes. *)
Definition float32_scalar (bits : Z) : Expr := Constant (scalar_of "float32" 4 bits).

Definition threshold_node : Node :=
  {| kind := "aten::threshold_"; inputs_ := []; outputs := [{| type := OtherJitType |}] |}.

(** A process in which a schedule for [nn.conv2d] has been declared; its
    constructor fetches the strategy from the runtime's registry. *)
Definition conv2d_schedule : TVMScheduleFunctor :=
  λ registry, registry !! "topi.generic.schedule_conv2d_nchw".

Definition schedule_process : Process :=
  RegisterTVMOperatorSchedule [("nn.conv2d", conv2d_schedule)]
    {| getTVMScheduleMap := ∅; getTVMOperatorMap := ∅;
       Registry :=
         {[ "relay.op._Register" := PackedFuncRef "relay.op._Register";
            "topi.generic.schedule_conv2d_nchw" :=
              PackedFuncRef "topi.generic.schedule_conv2d_nchw" ]};
       op_attrs := [] |}.

(** Inputs of a convolution node without bias, for a given weight. *)
Definition weighted_conv_inputs (weight : Expr) : list Expr :=
  [Var "x" NullType; weight; uint64_scalar getNoneSentinel;
   int_tuple [1; 1]; int_tuple [0; 0]; int_tuple [1; 1];
   bool_scalar false; int_tuple [0; 0]; int32_scalar 1;
   bool_scalar false; bool_scalar false; bool_scalar true].

(** A constant tensor of two elements. *)
Definition bias_tensor : NDArray :=
  {| shape := [2]; dtype := String2TVMType "float32"; data := le_bytes 8 0 |}.

(** A linear node whose first input has the given type. *)
Definition linear_node (ty : JitType) : Node :=
  {| kind := "aten::linear"; inputs_ := [{| type := ty |}];
     outputs := [{| type := OtherJitType |}] |}.

(** ** Derived notions used in the statements *)

(** A run of [registerSchedule] calls, one per name, in order; the first
    failure ends it. *)
Fixpoint registerSchedules (names : list string) (p : Process) : result Process :=
  match names with
  | [] => mret p
  | name :: names => p1 ← registerSchedule name p; registerSchedules names p1
  end.

(** The constructor stored for [name] would hand out a strategy now. *)
Definition armed (p : Process) (name : string) : bool :=
  match getTVMScheduleMap p !! name with
  | Some sched_f => bool_decide (is_Some (sched_f (Registry p)))
  | None => false
  end.

(** The convolution attributes inside what the convolution rule returns:
    the call itself, or the call under [nn.bias_add]. *)
Definition conv_attrs_of (e : Expr) : option Conv2DAttrs :=
  match e with
  | Call _ args attrs =>
      match attrs with
      | AttrsConv2D a => Some a
      | AttrsBiasAdd _ =>
          match args with
          | Call _ _ (AttrsConv2D a) :: _ => Some a
          | _ => None
          end
      | _ => None
      end
  | _ => None
  end.

(** The failure is one reported to the user ([TORCH_CHECK]). *)
Definition is_reported {A} (r : result A) : bool :=
  match r with CheckFailed _ => true | _ => false end.

(** * Properties *)

(** ** Inversion of the outcome monad *)

Section result_facts.
Context {A B : Type}.
Implicit Types (m : result A) (f : A → result B).

Lemma bind_Ok m f b : m ≫= f = Ok b ↔ ∃ a, m = Ok a ∧ f a = Ok b.
Proof.
  split.
  - destruct m; try discriminate. intros Hf. eauto.
  - intros (a & -> & Hf). exact Hf.
Qed.

Lemma fmap_Ok (g : A → B) m b : g <$> m = Ok b ↔ ∃ a, m = Ok a ∧ b = g a.
Proof.
  split.
  - destruct m; try discriminate. intros [= <-]. eauto.
  - intros (a & -> & ->). reflexivity.
Qed.

Lemma mret_inj (a a' : A) : mret a = Ok a' → a = a'.
Proof. unfold mret, result_ret. congruence. Qed.

Lemma deref_Ok (p : option A) a : deref p = Ok a ↔ p = Some a.
Proof. destruct p; simpl; split; congruence. Qed.

Lemma at_Ok (v : list A) i a : at_ v i = Ok a ↔ v !! i = Some a.
Proof. apply deref_Ok. Qed.
End result_facts.

Lemma TORCH_INTERNAL_ASSERT_Ok cond u : TORCH_INTERNAL_ASSERT cond = Ok u ↔ cond = true.
Proof. destruct cond, u; simpl; split; congruence. Qed.

Lemma TORCH_CHECK_Ok cond msg u : TORCH_CHECK cond msg = Ok u ↔ cond = true.
Proof. destruct cond, u; simpl; split; congruence. Qed.

(** ** The encoding helpers *)

Lemma as_ConstantNode_Some e c : as_ConstantNode e = Some c ↔ e = Constant c.
Proof. destruct e; simpl; split; congruence. Qed.

Lemma as_TupleNode_Some e fields : as_TupleNode e = Some fields ↔ e = Tuple fields.
Proof. destruct e; simpl; split; congruence. Qed.

Lemma isConstant_true e : isConstant e = true ↔ ∃ c, e = Constant c.
Proof.
  unfold isConstant. rewrite bool_decide_eq_true.
  destruct e; simpl; split; try (intros [? ?]; congruence); eauto.
Qed.

Lemma relayToConstant_Ok {T} (rd : list Byte.byte → option T) e v :
  relayToConstant rd e = Ok v ↔
  ∃ c, e = Constant c ∧ is_scalar c = true ∧ rd (data c) = Some v.
Proof.
  unfold relayToConstant. split.
  - intros H.
    apply bind_Ok in H as (? & _ & H).
    apply bind_Ok in H as (c & Hc & H).
    apply bind_Ok in H as (? & Hs & H).
    apply deref_Ok in Hc, H. apply as_ConstantNode_Some in Hc.
    apply TORCH_INTERNAL_ASSERT_Ok in Hs. eauto.
  - intros (c & -> & Hs & Hrd). simpl. rewrite Hs, Hrd. reflexivity.
Qed.

(** A reader applied to anything but a scalar constant is a fatal assertion. *)
Lemma relayToConstant_assert {T} (rd : list Byte.byte → option T) e :
  (∀ c, e = Constant c → is_scalar c = false) →
  relayToConstant rd e = InternalAssert.
Proof.
  intros H. destruct e; try reflexivity.
  unfold relayToConstant. simpl. rewrite (H c eq_refl). reflexivity.
Qed.

Lemma relayIsNone_Ok_true e :
  relayIsNone e = Ok true ↔
  ∃ c, e = Constant c ∧ is_scalar c = true ∧ as_uint64 (data c) = Some getNoneSentinel.
Proof.
  unfold relayIsNone. split.
  - destruct (isConstant e) eqn:Hc; simpl; [|discriminate].
    apply isConstant_true in Hc as [c ->]. simpl.
    destruct (is_scalar c) eqn:Hs; simpl; [|discriminate].
    destruct (as_uint64 (data c)) as [val|] eqn:Hv; simpl; [|discriminate].
    intros [= Heq]. apply Z.eqb_eq in Heq. subst val. eauto.
  - intros (c & -> & Hs & Hv). simpl. rewrite Hs, Hv. reflexivity.
Qed.

Lemma relayIsNone_not_constant e : isConstant e = false → relayIsNone e = Ok false.
Proof. unfold relayIsNone. intros ->. reflexivity. Qed.

Lemma relayIsNone_not_scalar c : is_scalar c = false → relayIsNone (Constant c) = Ok false.
Proof. unfold relayIsNone. simpl. intros ->. reflexivity. Qed.

Lemma relayIsNone_other_word c v :
  is_scalar c = true → as_uint64 (data c) = Some v → v ≠ getNoneSentinel →
  relayIsNone (Constant c) = Ok false.
Proof.
  unfold relayIsNone. simpl. intros -> -> Hv. simpl.
  f_equal. apply Z.eqb_neq. exact Hv.
Qed.


Lemma relayToArray_Tuple {T} (of_int : Z → T) fields xs :
  relayToArray of_int (Tuple fields) = Ok xs ↔
  Forall2 (λ f x, ∃ c v, f = Constant c ∧ is_scalar c = true ∧
                         as_int (data c) = Some v ∧ x = of_int v) fields xs.
Proof.
  unfold relayToArray. simpl.
  revert xs. induction fields as [|f fields IH]; intros xs; simpl.
  - split.
    + intros [= <-]. constructor.
    + intros H. inversion H. reflexivity.
  - split.
    + intros H.
      apply bind_Ok in H as (x & Hx & H).
      apply bind_Ok in Hx as (v & Hv & [= <-]).
      apply bind_Ok in H as (k & Hk & [= <-]).
      apply relayToConstant_Ok in Hv as (c & -> & Hs & Hv).
      constructor; [eauto 10|]. apply IH. assumption.
    + intros H. inversion H as [|? x ? xs' (c & v & -> & Hs & Hv & ->) Hrest]; subst.
      apply IH in Hrest.
      apply bind_Ok. exists (of_int v). split.
      * apply bind_Ok. exists v. split; [|reflexivity].
        apply relayToConstant_Ok. eauto.
      * apply bind_Ok. eauto.
Qed.

(** C10: the scalar reader [relayToConstant] answers anything that is not a
    scalar constant with a fatal assertion, but [relayToArray] uses the
    result of the tuple cast unchecked: on an argument that is not a tuple
    the outcome is undefined.  It returns an array exactly when the argument
    is a tuple whose fields are all scalar constants an [int] can be read
    from, and the array then holds one element per field, in order, each the
    [int] read from that field; the empty tuple gives the empty array. *)
Theorem relayToArray_unchecked_tuple_cast {T} (of_int : Z → T) :
  (∀ U (rd : list Byte.byte → option U) e,
     (∀ c, e = Constant c → is_scalar c = false) →
     relayToConstant rd e = InternalAssert) ∧
  (∀ e, as_TupleNode e = None → relayToArray of_int e = Undefined) ∧
  (∀ e xs,
     relayToArray of_int e = Ok xs ↔
     ∃ fields, e = Tuple fields ∧
       Forall2 (λ f x, ∃ c v, f = Constant c ∧ is_scalar c = true ∧
                              as_int (data c) = Some v ∧ x = of_int v) fields xs) ∧
  relayToArray of_int (Tuple []) = Ok [].
Proof.
  split; [|split; [|split]].
  - intros U rd e. apply relayToConstant_assert.
  - intros e He. unfold relayToArray. rewrite He. reflexivity.
  - intros e xs. split.
    + intros H. destruct (as_TupleNode e) as [fields|] eqn:He.
      * apply as_TupleNode_Some in He as ->. exists fields. split; [reflexivity|].
        apply relayToArray_Tuple. exact H.
      * unfold relayToArray in H. rewrite He in H. discriminate.
    + intros (fields & -> & H). apply relayToArray_Tuple. exact H.
  - reflexivity.
Qed.

Lemma relayToArray_unchecked_tuple_cast_witness :
  relayToConstant as_int (Var "x" NullType) = InternalAssert ∧
  relayToArray IntImm (Var "x" NullType) = Undefined ∧
  relayToArray IntImm (int_tuple [3; 3]) = Ok [IntImm 3; IntImm 3].
Proof.
  destruct (relayToArray_unchecked_tuple_cast IntImm) as (Hassert & Hundef & Hok & _).
  split; [|split].
  - apply Hassert. intros c Hc. discriminate Hc.
  - apply Hundef. reflexivity.
  - apply Hok. eexists. split; [reflexivity|].
    repeat constructor; do 2 eexists; (split; [reflexivity|]);
      (split; [reflexivity|]); split; reflexivity.
Defined.

(** C2 as written fails: a scalar [int64] is a real value of a
    numeric element type, yet the one whose two's-complement pattern is the
    sentinel is reported as none; so is the [double] with that pattern. *)
Lemma relayIsNone_collision :
  let v := -1947179160325787594 in
  as_int64_value (int64_scalar v) = Some v ∧
  relayIsNone (int64_scalar v) = Ok true ∧
  relayIsNone (float64_scalar 0xe4fa3adecabcf036) = Ok true.
Proof. vm_compute. repeat split. Qed.

(** C2 (amended): [relayIsNone e] is true exactly when [e] is a scalar
    constant whose first eight data bytes, read as one 64-bit word, are the
    sentinel 0xe4fa3adecabcf036, whatever element type it declares; it is
    false for every expression that is not a constant, for every constant
    that is not scalar, and for every scalar whose 64-bit word differs from
    the sentinel. *)
Theorem relayIsNone_sentinel_word :
  (∀ e, relayIsNone e = Ok true ↔
        ∃ c, e = Constant c ∧ is_scalar c = true ∧
             as_uint64 (data c) = Some getNoneSentinel) ∧
  (∀ e, isConstant e = false → relayIsNone e = Ok false) ∧
  (∀ c, is_scalar c = false → relayIsNone (Constant c) = Ok false) ∧
  (∀ c v, is_scalar c = true → as_uint64 (data c) = Some v →
          v ≠ getNoneSentinel → relayIsNone (Constant c) = Ok false).
Proof.
  split; [|split; [|split]].
  - apply relayIsNone_Ok_true.
  - apply relayIsNone_not_constant.
  - apply relayIsNone_not_scalar.
  - apply relayIsNone_other_word.
Qed.

Lemma relayIsNone_sentinel_word_witness :
  relayIsNone (uint64_scalar getNoneSentinel) = Ok true ∧
  relayIsNone (Var "bias" NullType) = Ok false ∧
  relayIsNone (Constant {| shape := [2]; dtype := String2TVMType "uint64";
                           data := le_bytes 16 getNoneSentinel |}) = Ok false ∧
  relayIsNone (int64_scalar 1) = Ok false.
Proof.
  destruct relayIsNone_sentinel_word as (Hiff & Hvar & Htensor & Hother).
  split; [|split; [|split]].
  - apply Hiff. eexists. split; [reflexivity|]. split; reflexivity.
  - apply Hvar. reflexivity.
  - apply Htensor. reflexivity.
  - apply (Hother _ 1); [reflexivity|reflexivity|]. vm_compute. discriminate.
Defined.

(** ** Convolution *)

(** C3: [aten::_convolution] returns exactly when its constant inputs can
    be read; the call it builds is [nn.conv2d_transpose] when the boolean
    read from input 6 is true and [nn.conv2d] otherwise, applied to inputs 0
    and 1; when input 2 (the bias) is a constant that call is the result,
    and when it is not the result is [nn.bias_add], axis 1, applied to the
    convolution call and input 2. *)
Theorem aten__convolution_transpose_and_bias node inputs e :
  aten__convolution node inputs = Ok e ↔
  ∃ in0 in1 in2 in3 in4 in5 in6 in8 is_transpose groups kernel_size
    strides padding dilation,
    inputs !! 0%nat = Some in0 ∧ inputs !! 1%nat = Some in1 ∧
    inputs !! 2%nat = Some in2 ∧ inputs !! 3%nat = Some in3 ∧
    inputs !! 4%nat = Some in4 ∧ inputs !! 5%nat = Some in5 ∧
    inputs !! 6%nat = Some in6 ∧ inputs !! 8%nat = Some in8 ∧
    relayToConstant as_bool in6 = Ok is_transpose ∧
    relayToConstant as_int in8 = Ok groups ∧
    kernel_size_of in1 = Ok kernel_size ∧
    relayToArray IntImm in3 = Ok strides ∧
    relayToArray IntImm in4 = Ok padding ∧
    relayToArray IntImm in5 = Ok dilation ∧
    let conv :=
      Call (if is_transpose : bool then "nn.conv2d_transpose" else "nn.conv2d")
        [in0; in1]
        (AttrsConv2D
           {| conv_strides := strides; conv_padding := padding;
              conv_dilation := dilation; conv_groups := groups;
              conv_kernel_size := kernel_size;
              conv_data_layout := "NCHW"; conv_kernel_layout := "OIHW" |}) in
    e = if isConstant in2 then conv
        else Call "nn.bias_add" [conv; in2] (AttrsBiasAdd 1).
Proof.
  unfold aten__convolution. split.
  - intros H.
    apply bind_Ok in H as (is_transpose & H6 & H).
    apply bind_Ok in H6 as (in6 & H6 & Ht).
    apply bind_Ok in H as (in0 & H0 & H).
    apply bind_Ok in H as (in1 & H1 & H).
    apply bind_Ok in H as (groups & H8 & H).
    apply bind_Ok in H8 as (in8 & H8 & Hg).
    apply bind_Ok in H as (kernel_size & Hk & H).
    apply bind_Ok in H as (strides & H3 & H).
    apply bind_Ok in H3 as (in3 & H3 & Hs).
    apply bind_Ok in H as (padding & H4 & H).
    apply bind_Ok in H4 as (in4 & H4 & Hp).
    apply bind_Ok in H as (dilation & H5 & H).
    apply bind_Ok in H5 as (in5 & H5 & Hd).
    apply bind_Ok in H as (in2 & H2 & H).
    apply at_Ok in H0, H1, H2, H3, H4, H5, H6, H8.
    exists in0, in1, in2, in3, in4, in5, in6, in8, is_transpose, groups,
      kernel_size, strides, padding, dilation.
    repeat (split; [assumption|]).
    simpl. fold (isConstant in2) in H.
    destruct (isConstant in2); simpl in H; apply mret_inj in H; subst e; reflexivity.
  - intros (in0 & in1 & in2 & in3 & in4 & in5 & in6 & in8 & is_transpose &
            groups & kernel_size & strides & padding & dilation &
            H0 & H1 & H2 & H3 & H4 & H5 & H6 & H8 & Ht & Hg & Hk & Hs & Hp & Hd & He).
    unfold at_. rewrite H0, H1, H2, H3, H4, H5, H6, H8. simpl.
    rewrite Ht. simpl. rewrite Hg. simpl. rewrite Hk. simpl.
    rewrite Hs. simpl. rewrite Hp. simpl. rewrite Hd. simpl.
    fold (isConstant in2). rewrite He.
    destruct (isConstant in2); reflexivity.
Qed.

Lemma aten__convolution_transpose_and_bias_witness :
  let conv_inputs bias transposed :=
    [Var "x" NullType; Constant (scalar_of "float32" 4 0); bias;
     int_tuple [1; 1]; int_tuple [0; 0]; int_tuple [1; 1];
     bool_scalar transposed; int_tuple [0; 0]; int32_scalar 1;
     bool_scalar false; bool_scalar false; bool_scalar true] in
  let attrs :=
    AttrsConv2D
      {| conv_strides := [IntImm 1; IntImm 1];
         conv_padding := [IntImm 0; IntImm 0];
         conv_dilation := [IntImm 1; IntImm 1]; conv_groups := 1;
         conv_kernel_size := None;
         conv_data_layout := "NCHW"; conv_kernel_layout := "OIHW" |} in
  let node := {| kind := "aten::_convolution"; inputs_ := []; outputs := [] |} in
  aten__convolution node (conv_inputs (uint64_scalar getNoneSentinel) false) =
    Ok (Call "nn.conv2d"
          [Var "x" NullType; Constant (scalar_of "float32" 4 0)] attrs) ∧
  aten__convolution node (conv_inputs (Var "b" NullType) true) =
    Ok (Call "nn.bias_add"
          [Call "nn.conv2d_transpose"
             [Var "x" NullType; Constant (scalar_of "float32" 4 0)] attrs;
           Var "b" NullType] (AttrsBiasAdd 1)).
Proof.
  split; apply aten__convolution_transpose_and_bias;
    do 14 eexists; repeat (split; [reflexivity|]); reflexivity.
Defined.

(** ** Batch normalisation *)

(** What a successful run of the batch-norm rule looks like. *)
Lemma aten_batch_norm_Ok node inputs e :
  aten_batch_norm node inputs = Ok e ↔
  ∃ in0 in1 in2 in3 in4 in5 in6 in7 in8 eps none1 none2,
    inputs = [in0; in1; in2; in3; in4; in5; in6; in7; in8] ∧
    relayToConstant as_bool in5 = Ok false ∧
    relayToConstant as_float in7 = Ok eps ∧
    relayIsNone in1 = Ok none1 ∧
    relayIsNone in2 = Ok none2 ∧
    length (outputs node) = 1%nat ∧
    e = TupleGetItem
          (Call "nn.batch_norm"
             [in0;
              if none1 : bool
              then Call "broadcast_to_like" [Constant placeholder_array; in3] NullAttrs
              else in1;
              if none2 : bool
              then Call "broadcast_to_like" [Constant placeholder_array; in3] NullAttrs
              else in2;
              in3; in4]
             (AttrsBatchNorm
                {| bn_axis := 1; bn_epsilon := eps;
                   bn_center := negb none2; bn_scale := negb none1 |})) 0.
Proof.
  unfold aten_batch_norm. split.
  - intros H.
    apply bind_Ok in H as (? & Hlen & H).
    apply TORCH_CHECK_Ok, bool_decide_eq_true in Hlen.
    do 10 (destruct inputs as [|? inputs]; try discriminate Hlen).
    unfold at_ in H. simpl in H.
    apply bind_Ok in H as (training & Ht & H).
    apply bind_Ok in H as (? & Htf & H).
    apply TORCH_CHECK_Ok, bool_decide_eq_true in Htf. subst training.
    apply bind_Ok in H as (eps & He & H).
    apply bind_Ok in H as (none1 & Hn1 & H).
    apply bind_Ok in H as (none2 & Hn2 & H).
    apply bind_Ok in H as (? & Hout & H).
    apply TORCH_INTERNAL_ASSERT_Ok, bool_decide_eq_true in Hout.
    rewrite Hout in H. simpl in H. apply mret_inj in H. subst e.
    do 12 eexists. repeat (split; [eassumption || reflexivity|]).
    destruct none1, none2; reflexivity.
  - intros (in0 & in1 & in2 & in3 & in4 & in5 & in6 & in7 & in8 & eps &
            none1 & none2 & -> & Ht & He & Hn1 & Hn2 & Hout & ->).
    unfold at_. simpl. rewrite Ht. simpl. rewrite He. simpl.
    rewrite Hn1. simpl. rewrite Hn2. simpl. rewrite Hout. simpl.
    destruct none1, none2; reflexivity.
Qed.

(** The placeholder is the binary32 number nearest to 1337e10. *)
Lemma float_1337e10_nearest :
  decode_binary32 float_1337e10 = FFin 12750626 20 ∧
  2 * Z.abs (12750626 * 2 ^ 20 - 1337 * 10 ^ 10) < 2 ^ 20.
Proof. split; [vm_compute; reflexivity | vm_compute; reflexivity]. Qed.

(** C4 (amended): when the batch-norm rule returns, the scale flag is the
    negation of the none test on input 1 and the center flag that of the
    none test on input 2; a none scale (shift) is replaced by the scalar
    [float32] constant 1337e10 under [broadcast_to_like] with input 3, the
    running mean, as the shape to follow, and a scale (shift) that is not
    none is passed to [nn.batch_norm] as it is. *)
Theorem aten_batch_norm_placeholder node inputs e :
  aten_batch_norm node inputs = Ok e →
  ∃ in0 in1 in2 in3 in4 none1 none2 weight bias attrs,
    inputs !! 0%nat = Some in0 ∧ inputs !! 1%nat = Some in1 ∧
    inputs !! 2%nat = Some in2 ∧ inputs !! 3%nat = Some in3 ∧
    inputs !! 4%nat = Some in4 ∧
    relayIsNone in1 = Ok none1 ∧ relayIsNone in2 = Ok none2 ∧
    e = TupleGetItem
          (Call "nn.batch_norm" [in0; weight; bias; in3; in4]
             (AttrsBatchNorm attrs)) 0 ∧
    bn_scale attrs = negb none1 ∧
    bn_center attrs = negb none2 ∧
    weight = (if none1 : bool
              then Call "broadcast_to_like" [Constant placeholder_array; in3] NullAttrs
              else in1) ∧
    bias = (if none2 : bool
            then Call "broadcast_to_like" [Constant placeholder_array; in3] NullAttrs
            else in2) ∧
    is_scalar placeholder_array = true ∧
    dtype placeholder_array = String2TVMType "float32" ∧
    decode_binary32 <$> as_float (data placeholder_array) = Some (FFin 12750626 20).
Proof.
  intros H.
  apply aten_batch_norm_Ok in H
    as (in0 & in1 & in2 & in3 & in4 & in5 & in6 & in7 & in8 & eps &
        none1 & none2 & -> & Ht & He & Hn1 & Hn2 & Hout & ->).
  exists in0, in1, in2, in3, in4, none1, none2.
  do 3 eexists.
  repeat (split; [reflexivity || eassumption|]).
  vm_compute. reflexivity.
Qed.

Lemma aten_batch_norm_placeholder_witness :
  ∃ e, aten_batch_norm (batch_norm_node 1)
         (batch_norm_inputs (uint64_scalar getNoneSentinel)
            (Var "beta" NullType) false) = Ok e ∧
       e = TupleGetItem
             (Call "nn.batch_norm"
                [Var "x" NullType;
                 Call "broadcast_to_like"
                   [Constant placeholder_array; Var "running_mean" NullType]
                   NullAttrs;
                 Var "beta" NullType;
                 Var "running_mean" NullType; Var "running_var" NullType]
                (AttrsBatchNorm
                   {| bn_axis := 1; bn_epsilon := 0x3727c5ac;
                      bn_center := true; bn_scale := false |})) 0.
Proof.
  eexists. split; [reflexivity|].
  destruct (aten_batch_norm_placeholder (batch_norm_node 1)
              (batch_norm_inputs (uint64_scalar getNoneSentinel)
                 (Var "beta" NullType) false) _ eq_refl)
    as (in0 & in1 & in2 & in3 & in4 & none1 & none2 & weight & bias & attrs &
        H0 & H1 & H2 & H3 & H4 & Hn1 & Hn2 & He & _).
  reflexivity.
Defined.

(** C4 as written fails: the placeholder follows the shape of
    input 3 (the running mean), not that of the input tensor, input 0. *)
Lemma aten_batch_norm_placeholder_not_like_input :
  ∃ weight bias attrs,
    aten_batch_norm (batch_norm_node 1)
      (batch_norm_inputs (uint64_scalar getNoneSentinel)
         (uint64_scalar getNoneSentinel) false) =
    Ok (TupleGetItem
          (Call "nn.batch_norm"
             [Var "x" NullType; weight; bias;
              Var "running_mean" NullType; Var "running_var" NullType]
             attrs) 0) ∧
    weight = Call "broadcast_to_like"
               [Constant placeholder_array; Var "running_mean" NullType] NullAttrs ∧
    weight ≠ Call "broadcast_to_like"
               [Constant placeholder_array; Var "x" NullType] NullAttrs ∧
    bias = weight.
Proof.
  exists (Call "broadcast_to_like"
            [Constant placeholder_array; Var "running_mean" NullType] NullAttrs),
         (Call "broadcast_to_like"
            [Constant placeholder_array; Var "running_mean" NullType] NullAttrs),
         (AttrsBatchNorm
            {| bn_axis := 1; bn_epsilon := 0x3727c5ac;
               bn_center := false; bn_scale := false |}).
  split; [vm_compute; reflexivity|].
  split; [reflexivity|]. split; [congruence|reflexivity].
Qed.

(** C9: with the training flag (input 5) a true constant the batch-norm
    rule fails, with the training-mode message when it was handed nine
    inputs; on inputs that get a one-output node through, a node with any
    other number of outputs is a fatal assertion; and every expression the
    rule returns is the projection at index 0 of the [nn.batch_norm] call,
    for a node with exactly one output, so the branch that hands a
    two-output node the call itself is never taken. *)
Theorem aten_batch_norm_inference_single_output :
  (∀ node inputs c,
     inputs !! 5%nat = Some (Constant c) → is_scalar c = true →
     as_bool (data c) = Some true →
     aten_batch_norm node inputs =
       CheckFailed (if bool_decide (length inputs = 9%nat)
                    then "batch_norm is in training mode"
                    else "batch_norm received " +:+ pretty (length inputs) +:+
                         " inputs")) ∧
  (∀ node node1 inputs e,
     aten_batch_norm node1 inputs = Ok e →
     length (outputs node) ≠ 1%nat →
     aten_batch_norm node inputs = InternalAssert) ∧
  (∀ node inputs e,
     aten_batch_norm node inputs = Ok e →
     length (outputs node) = 1%nat ∧
     ∃ args attrs, e = TupleGetItem (Call "nn.batch_norm" args attrs) 0).
Proof.
  split; [|split].
  - intros node inputs c H5 Hs Hb. unfold aten_batch_norm.
    destruct (bool_decide (length inputs = 9%nat)); [|reflexivity].
    simpl. unfold at_. rewrite H5. simpl.
    unfold relayToConstant. simpl. rewrite Hs. simpl. rewrite Hb. reflexivity.
  - intros node node1 inputs e H Hout.
    apply aten_batch_norm_Ok in H
      as (in0 & in1 & in2 & in3 & in4 & in5 & in6 & in7 & in8 & eps &
          none1 & none2 & -> & Ht & He & Hn1 & Hn2 & _ & _).
    unfold aten_batch_norm, at_. simpl. rewrite Ht. simpl. rewrite He. simpl.
    rewrite Hn1. simpl. rewrite Hn2. simpl.
    rewrite (bool_decide_eq_false_2 _ Hout). reflexivity.
  - intros node inputs e H.
    apply aten_batch_norm_Ok in H
      as (in0 & in1 & in2 & in3 & in4 & in5 & in6 & in7 & in8 & eps &
          none1 & none2 & -> & Ht & He & Hn1 & Hn2 & Hout & ->).
    split; [exact Hout|]. eauto.
Qed.

Lemma aten_batch_norm_inference_single_output_witness :
  let inference := batch_norm_inputs (Var "gamma" NullType) (Var "beta" NullType) false in
  let training := batch_norm_inputs (Var "gamma" NullType) (Var "beta" NullType) true in
  aten_batch_norm (batch_norm_node 1) training =
    CheckFailed "batch_norm is in training mode" ∧
  aten_batch_norm (batch_norm_node 2) inference = InternalAssert ∧
  length (outputs (batch_norm_node 1)) = 1%nat.
Proof.
  destruct aten_batch_norm_inference_single_output as (Htrain & Hout & Hproj).
  assert (Hrun : ∃ e, aten_batch_norm (batch_norm_node 1)
              (batch_norm_inputs (Var "gamma" NullType) (Var "beta" NullType) false)
            = Ok e) by (eexists; vm_compute; reflexivity).
  destruct Hrun as [e Hrun].
  split; [|split].
  - apply (Htrain (batch_norm_node 1)
             (batch_norm_inputs (Var "gamma" NullType) (Var "beta" NullType) true)
             (scalar_of "bool" 1 1)); reflexivity.
  - apply (Hout _ _ _ _ Hrun). vm_compute. discriminate.
  - apply (Hproj _ _ _ Hrun).
Defined.

(** ** Pooling *)

(** C6: [aten::avg_pool2d] and [aten::max_pool2d] return exactly when
    their constant inputs can be read, and the strides attribute of the
    pooling call they build is the decoded pool size (input 1) when the
    decoded stride tuple (input 2) is empty, and the decoded stride tuple
    itself when it is not. *)
Theorem pool2d_strides_default node inputs e :
  (aten_avg_pool2d node inputs = Ok e ↔
   ∃ in0 in1 in2 in3 in4 in5 pool_size strides padding ceil_mode count_include_pad,
     inputs !! 0%nat = Some in0 ∧ inputs !! 1%nat = Some in1 ∧
     inputs !! 2%nat = Some in2 ∧ inputs !! 3%nat = Some in3 ∧
     inputs !! 4%nat = Some in4 ∧ inputs !! 5%nat = Some in5 ∧
     relayToArray IntImm in1 = Ok pool_size ∧
     relayToArray IntImm in2 = Ok strides ∧
     relayToArray IntImm in3 = Ok padding ∧
     relayToConstant as_bool in4 = Ok ceil_mode ∧
     relayToConstant as_bool in5 = Ok count_include_pad ∧
     e = Call "nn.avg_pool2d" [in0]
           (AttrsAvgPool2D
              {| avg_pool_size := pool_size;
                 avg_strides := match strides with [] => pool_size | _ => strides end;
                 avg_padding := padding; avg_layout := "NCHW";
                 avg_ceil_mode := ceil_mode;
                 avg_count_include_pad := count_include_pad |})) ∧
  (aten_max_pool2d node inputs = Ok e ↔
   ∃ in0 in1 in2 in3 in5 pool_size strides padding ceil_mode,
     inputs !! 0%nat = Some in0 ∧ inputs !! 1%nat = Some in1 ∧
     inputs !! 2%nat = Some in2 ∧ inputs !! 3%nat = Some in3 ∧
     inputs !! 5%nat = Some in5 ∧
     relayToArray IntImm in1 = Ok pool_size ∧
     relayToArray IntImm in2 = Ok strides ∧
     relayToArray IntImm in3 = Ok padding ∧
     relayToConstant as_bool in5 = Ok ceil_mode ∧
     e = Call "nn.max_pool2d" [in0]
           (AttrsMaxPool2D
              {| max_pool_size := pool_size;
                 max_strides := match strides with [] => pool_size | _ => strides end;
                 max_padding := padding; max_layout := "NCHW";
                 max_ceil_mode := ceil_mode |})).
Proof.
  split.
  - unfold aten_avg_pool2d. split.
    + intros H.
      apply bind_Ok in H as (pool_size & H1 & H).
      apply bind_Ok in H1 as (in1 & H1 & Hpool).
      apply bind_Ok in H as (strides & H2 & H).
      apply bind_Ok in H2 as (in2 & H2 & Hstrides).
      apply bind_Ok in H as (padding & H3 & H).
      apply bind_Ok in H3 as (in3 & H3 & Hpad).
      apply bind_Ok in H as (ceil_mode & H4 & H).
      apply bind_Ok in H4 as (in4 & H4 & Hceil).
      apply bind_Ok in H as (count_include_pad & H5 & H).
      apply bind_Ok in H5 as (in5 & H5 & Hcount).
      apply bind_Ok in H as (in0 & H0 & H).
      apply at_Ok in H0, H1, H2, H3, H4, H5. apply mret_inj in H. subst e.
      exists in0, in1, in2, in3, in4, in5, pool_size, strides, padding,
        ceil_mode, count_include_pad.
      repeat (split; [assumption|]). destruct strides; reflexivity.
    + intros (in0 & in1 & in2 & in3 & in4 & in5 & pool_size & strides & padding &
              ceil_mode & count_include_pad & H0 & H1 & H2 & H3 & H4 & H5 &
              Hpool & Hstrides & Hpad & Hceil & Hcount & ->).
      unfold at_. rewrite H0, H1, H2, H3, H4, H5. simpl.
      rewrite Hpool. simpl. rewrite Hstrides. simpl. rewrite Hpad. simpl.
      rewrite Hceil. simpl. rewrite Hcount. simpl.
      destruct strides; reflexivity.
  - unfold aten_max_pool2d. split.
    + intros H.
      apply bind_Ok in H as (pool_size & H1 & H).
      apply bind_Ok in H1 as (in1 & H1 & Hpool).
      apply bind_Ok in H as (strides & H2 & H).
      apply bind_Ok in H2 as (in2 & H2 & Hstrides).
      apply bind_Ok in H as (padding & H3 & H).
      apply bind_Ok in H3 as (in3 & H3 & Hpad).
      apply bind_Ok in H as (ceil_mode & H5 & H).
      apply bind_Ok in H5 as (in5 & H5 & Hceil).
      apply bind_Ok in H as (in0 & H0 & H).
      apply at_Ok in H0, H1, H2, H3, H5. apply mret_inj in H. subst e.
      exists in0, in1, in2, in3, in5, pool_size, strides, padding, ceil_mode.
      repeat (split; [assumption|]). destruct strides; reflexivity.
    + intros (in0 & in1 & in2 & in3 & in5 & pool_size & strides & padding &
              ceil_mode & H0 & H1 & H2 & H3 & H5 &
              Hpool & Hstrides & Hpad & Hceil & ->).
      unfold at_. rewrite H0, H1, H2, H3, H5. simpl.
      rewrite Hpool. simpl. rewrite Hstrides. simpl. rewrite Hpad. simpl.
      rewrite Hceil. simpl.
      destruct strides; reflexivity.
Qed.

Lemma pool2d_strides_default_witness :
  let avg strides :=
    Call "nn.avg_pool2d" [Var "x" NullType]
      (AttrsAvgPool2D
         {| avg_pool_size := [IntImm 3; IntImm 3]; avg_strides := strides;
            avg_padding := [IntImm 0; IntImm 0]; avg_layout := "NCHW";
            avg_ceil_mode := false; avg_count_include_pad := true |}) in
  let max strides :=
    Call "nn.max_pool2d" [Var "x" NullType]
      (AttrsMaxPool2D
         {| max_pool_size := [IntImm 3; IntImm 3]; max_strides := strides;
            max_padding := [IntImm 0; IntImm 0]; max_layout := "NCHW";
            max_ceil_mode := false |}) in
  aten_avg_pool2d (pool_node "aten::avg_pool2d") (avg_pool2d_inputs []) =
    Ok (avg [IntImm 3; IntImm 3]) ∧
  aten_avg_pool2d (pool_node "aten::avg_pool2d") (avg_pool2d_inputs [2; 2]) =
    Ok (avg [IntImm 2; IntImm 2]) ∧
  aten_max_pool2d (pool_node "aten::max_pool2d") (max_pool2d_inputs []) =
    Ok (max [IntImm 3; IntImm 3]) ∧
  aten_max_pool2d (pool_node "aten::max_pool2d") (max_pool2d_inputs [2; 2]) =
    Ok (max [IntImm 2; IntImm 2]).
Proof.
  split; [|split; [|split]].
  - apply pool2d_strides_default.
    do 11 eexists; repeat (split; [reflexivity|]); reflexivity.
  - apply pool2d_strides_default.
    do 11 eexists; repeat (split; [reflexivity|]); reflexivity.
  - apply pool2d_strides_default.
    do 9 eexists; repeat (split; [reflexivity|]); reflexivity.
  - apply pool2d_strides_default.
    do 9 eexists; repeat (split; [reflexivity|]); reflexivity.
Defined.

(** ** Addition *)

(** C7: what [aten::add] and [aten::add_] do.  With other than three
    inputs they fail a fatal assertion.  They return exactly when the third
    input is a scalar constant whose [int] is 1, and the result is then the
    [add] call on the first two inputs.  A scalar constant holding another
    [int], such as 2, and a constant that is not scalar fail the fatal
    assertion.  A third input that is not a constant is not asserted
    against: the null result of the cast is dereferenced. *)
Theorem aten_add_scale_outcomes (rule : TVMOpFunctor) node :
  rule = aten_add ∨ rule = aten_add_ →
  (∀ inputs, length inputs ≠ 3%nat → rule node inputs = InternalAssert) ∧
  (∀ inputs e,
     rule node inputs = Ok e ↔
     ∃ a b c, inputs = [a; b; Constant c] ∧ is_scalar c = true ∧
              as_int (data c) = Some 1 ∧ e = Call "add" [a; b] NullAttrs) ∧
  (∀ a b c v, is_scalar c = true → as_int (data c) = Some v → v ≠ 1 →
              rule node [a; b; Constant c] = InternalAssert) ∧
  (∀ a b c, is_scalar c = false →
            rule node [a; b; Constant c] = InternalAssert) ∧
  (∀ a b s, as_ConstantNode s = None → rule node [a; b; s] = Undefined).
Proof.
  intros Hrule.
  assert (Hdef : rule = aten_add) by (destruct Hrule; subst; reflexivity).
  subst rule. clear Hrule. unfold aten_add.
  split; [|split; [|split; [|split]]].
  - intros inputs Hlen. rewrite (bool_decide_eq_false_2 _ Hlen). reflexivity.
  - intros inputs e. split.
    + intros H.
      apply bind_Ok in H as (? & Hlen & H).
      apply TORCH_INTERNAL_ASSERT_Ok, bool_decide_eq_true in Hlen.
      do 4 (destruct inputs as [|? inputs]; try discriminate Hlen).
      unfold at_ in H. simpl in H.
      apply bind_Ok in H as (c & Hc & H).
      apply deref_Ok, as_ConstantNode_Some in Hc. subst.
      apply bind_Ok in H as (cond & Hcond & H).
      apply bind_Ok in H as (? & Hassert & H).
      apply TORCH_INTERNAL_ASSERT_Ok in Hassert. subst cond.
      apply mret_inj in H. subst e.
      destruct (is_scalar c) eqn:Hs; [|discriminate Hcond].
      apply bind_Ok in Hcond as (v & Hv & Hone).
      apply deref_Ok in Hv. apply mret_inj, Z.eqb_eq in Hone. subst v.
      eauto 10.
    + intros (a & b & c & -> & Hs & Hv & ->).
      unfold at_. simpl. rewrite Hs, Hv. reflexivity.
  - intros a b c v Hs Hv Hne. unfold at_. simpl. rewrite Hs, Hv. simpl.
    apply Z.eqb_neq in Hne. rewrite Hne. reflexivity.
  - intros a b c Hs. unfold at_. simpl. rewrite Hs. reflexivity.
  - intros a b s Hs. unfold at_. simpl. rewrite Hs. reflexivity.
Qed.

Lemma aten_add_scale_outcomes_witness :
  let a := Var "a" NullType in
  let b := Var "b" NullType in
  aten_add (add_node "aten::add") [a; b] = InternalAssert ∧
  aten_add (add_node "aten::add") [a; b; int32_scalar 1] =
    Ok (Call "add" [a; b] NullAttrs) ∧
  aten_add_ (add_node "aten::add_") [a; b; int32_scalar 2] = InternalAssert ∧
  aten_add (add_node "aten::add") [a; b; Var "alpha" NullType] = Undefined ∧
  aten_add_ (add_node "aten::add_") [a; b; Var "alpha" NullType] = Undefined.
Proof.
  destruct (aten_add_scale_outcomes aten_add (add_node "aten::add") (or_introl eq_refl))
    as (Hlen & Hok & Hne & _ & Hnull).
  destruct (aten_add_scale_outcomes aten_add_ (add_node "aten::add_") (or_intror eq_refl))
    as (_ & _ & Hne' & _ & Hnull').
  split; [|split; [|split; [|split]]].
  - apply Hlen. simpl. lia.
  - apply Hok. do 3 eexists. split; [reflexivity|]. split; [reflexivity|].
    split; reflexivity.
  - apply (Hne' _ _ _ 2); [reflexivity|reflexivity|lia].
  - apply Hnull. reflexivity.
  - apply Hnull'. reflexivity.
Defined.

(** ** Threshold *)


(** The literal [1e-7] is the binary64 number nearest to 10^-7, and lies
    just below it. *)
Lemma lit_1e_7_nearest :
  lit_1e_7 = (7555786372591432, -76) ∧
  2 ^ 52 ≤ lit_1e_7.1 < 2 ^ 53 ∧
  lit_1e_7.1 * 10 ^ 7 < 2 ^ 76 ∧
  2 * (2 ^ 76 - lit_1e_7.1 * 10 ^ 7) < 10 ^ 7.
Proof. vm_compute. repeat split; discriminate. Qed.

Lemma near_zero_scaled mm j :
  0 ≤ mm < 2 ^ 24 → 1 ≤ j →
  mm * 2 ^ j < 7555786372591432 ↔ mm * 2 ^ j * 10 ^ 7 < 2 ^ 76.
Proof.
  intros Hmm Hj.
  assert (Hpow : 0 < 2 ^ j) by (apply Z.pow_pos_nonneg; lia).
  assert (Hk : 0 ≤ mm * 2 ^ j) by nia.
  set (k := mm * 2 ^ j) in *.
  split; [lia|].
  intros Hreal.
  assert (Hle : k ≤ 7555786372591432) by lia.
  destruct (decide (k = 7555786372591432)) as [Heq|]; [exfalso|lia].
  destruct (decide (j < 29)) as [Hsmall|Hbig].
  - assert (2 ^ j ≤ 2 ^ 28) by (apply Z.pow_le_mono_r; lia).
    assert (k < 2 ^ 24 * 2 ^ 28) by (subst k; nia). lia.
  - assert (Hsplit : 2 ^ j = 2 ^ (j - 29) * 2 ^ 29)
      by (rewrite <- Z.pow_add_r by lia; f_equal; lia).
    assert (Hmod : k mod 2 ^ 29 = 0).
    { subst k. rewrite Hsplit, Z.mul_assoc. apply Z.mod_mul. lia. }
    rewrite Heq in Hmod. vm_compute in Hmod. discriminate Hmod.
Qed.

Lemma decode_binary32_bounds d m e :
  decode_binary32 d = FFin m e → -149 ≤ e ≤ 104 ∧ Z.abs m < 2 ^ 24.
Proof.
  unfold decode_binary32.
  change 255 with (Z.ones 8). change 8388607 with (Z.ones 23).
  rewrite !Z.land_ones by lia.
  pose proof (Z.mod_pos_bound (Z.shiftr d 23) (2 ^ 8) eq_refl) as Hex.
  pose proof (Z.mod_pos_bound d (2 ^ 23) eq_refl) as Hman.
  set (ex := Z.shiftr d 23 mod 2 ^ 8) in *.
  set (man := d mod 2 ^ 23) in *.
  change (Z.ones 8) with 255.
  destruct (ex =? 255) eqn:H255.
  { destruct (man =? 0); discriminate. }
  apply Z.eqb_neq in H255.
  destruct (ex =? 0) eqn:H0.
  - intros [= <- <-]. split; [lia|].
    match goal with |- context [if ?b then _ else _] => destruct b end; lia.
  - apply Z.eqb_neq in H0. intros [= <- <-]. split; [lia|].
    match goal with |- context [if ?b then _ else _] => destruct b end; lia.
Qed.

Lemma dyadic_near_zero m e :
  -149 ≤ e ≤ 104 → Z.abs m < 2 ^ 24 →
  dyadic_ltb m e 7555786372591432 (-76) = true ∧
  dyadic_ltb (- 7555786372591432) (-76) m e = true ↔
  within_1e_7 m e.
Proof.
  intros He Hm. unfold dyadic_ltb, within_1e_7.
  rewrite !Z.ltb_lt.
  destruct (decide (e ≤ -76)) as [Hlow|Hhigh].
  - replace (Z.min e (-76)) with e by lia.
    replace (Z.min (-76) e) with e by lia.
    replace (e - e) with 0 by lia. rewrite Z.pow_0_r, Z.mul_1_r.
    assert (Hp : 1 ≤ 2 ^ (-76 - e)) by (apply (Z.pow_le_mono_r 2 0); lia).
    assert (Hq : 0 < 2 ^ (e + 149) ≤ 2 ^ 73)
      by (split; [apply Z.pow_pos_nonneg; lia | apply Z.pow_le_mono_r; lia]).
    split; intros _.
    + assert (Z.abs m * 2 ^ (e + 149) ≤ 2 ^ 24 * 2 ^ 73) by nia. lia.
    + split; nia.
  - replace (Z.min e (-76)) with (-76) by lia.
    replace (Z.min (-76) e) with (-76) by lia.
    replace (-76 - -76) with 0 by lia. rewrite Z.pow_0_r, !Z.mul_1_r.
    replace (e - -76) with (e + 76) by lia.
    replace (e + 149) with ((e + 76) + 73) by lia.
    rewrite (Z.pow_add_r 2 (e + 76) 73) by lia.
    assert (Hj : 0 < 2 ^ (e + 76)) by (apply Z.pow_pos_nonneg; lia).
    pose proof (near_zero_scaled (Z.abs m) (e + 76)) as Hcore.
    assert (Habs : Z.abs (m * 2 ^ (e + 76)) = Z.abs m * 2 ^ (e + 76))
      by (rewrite Z.abs_mul, (Z.abs_eq (2 ^ _)); lia).
    split.
    + intros [Hlt Hgt].
      assert (Z.abs m * 2 ^ (e + 76) * 10 ^ 7 < 2 ^ 76) by (apply Hcore; lia).
      change (2 ^ 149) with (2 ^ 76 * 2 ^ 73). nia.
    + intros Hreal.
      assert (Z.abs m * 2 ^ (e + 76) < 7555786372591432).
      { apply Hcore; [lia|lia|]. change (2 ^ 149) with (2 ^ 76 * 2 ^ 73) in Hreal.
        nia. }
      lia.
Qed.

(** The range test of the threshold rule, read over the reals: a [float]
    passes both comparisons exactly when it is finite and its absolute
    value is below 10^-7. *)
Lemma float_near_zero_real d :
  float_lt d lit_1e_7 = true ∧ float_gt d lit_neg_1e_7 = true ↔
  ∃ m e, decode_binary32 d = FFin m e ∧ within_1e_7 m e.
Proof.
  unfold float_lt, float_gt, lit_neg_1e_7.
  rewrite (proj1 lit_1e_7_nearest). cbn [fst snd].
  destruct (decode_binary32 d) as [|neg|m e] eqn:Hd.
  - split; [intros [? _]; discriminate|intros (? & ? & ? & _); discriminate].
  - split; [|intros (? & ? & ? & _); discriminate].
    destruct neg; intros [? ?]; discriminate.
  - apply decode_binary32_bounds in Hd as [He Hm].
    rewrite (dyadic_near_zero m e He Hm).
    split; [eauto|]. intros (? & ? & [= <- <-] & ?). assumption.
Qed.

(** What the threshold rule does once the none tests have returned:
    it returns exactly when they answer false on each of its first three
    inputs and inputs 1 and 2 are scalar constants whose [float]s lie
    strictly between [-1e-7] and [1e-7], the result being [nn.relu] applied
    to input 0; with the tests answering false and one of the two [float]s
    outside that interval it fails a [TORCH_CHECK].  The two comparisons
    against the [double] literals hold together exactly when the [float] is
    finite and of absolute value below 10^-7.  A none test returns on a
    scalar only if eight bytes can be read from it. *)
Lemma aten_threshold__when_tests_return node inputs :
  (∀ e,
     aten_threshold_ node inputs = Ok e ↔
     ∃ in0 c1 c2 d1 d2,
       inputs !! 0%nat = Some in0 ∧
       inputs !! 1%nat = Some (Constant c1) ∧
       inputs !! 2%nat = Some (Constant c2) ∧
       relayIsNone in0 = Ok false ∧
       relayIsNone (Constant c1) = Ok false ∧
       relayIsNone (Constant c2) = Ok false ∧
       is_scalar c1 = true ∧ as_float (data c1) = Some d1 ∧
       is_scalar c2 = true ∧ as_float (data c2) = Some d2 ∧
       float_lt d1 lit_1e_7 = true ∧ float_gt d1 lit_neg_1e_7 = true ∧
       float_lt d2 lit_1e_7 = true ∧ float_gt d2 lit_neg_1e_7 = true ∧
       e = Call "nn.relu" [in0] NullAttrs) ∧
  (∀ in0 c1 c2 d1 d2,
     inputs !! 0%nat = Some in0 →
     inputs !! 1%nat = Some (Constant c1) →
     inputs !! 2%nat = Some (Constant c2) →
     relayIsNone in0 = Ok false →
     relayIsNone (Constant c1) = Ok false →
     relayIsNone (Constant c2) = Ok false →
     is_scalar c1 = true → as_float (data c1) = Some d1 →
     is_scalar c2 = true → as_float (data c2) = Some d2 →
     float_lt d1 lit_1e_7 && float_gt d1 lit_neg_1e_7 &&
       float_lt d2 lit_1e_7 && float_gt d2 lit_neg_1e_7 = false →
     aten_threshold_ node inputs =
       CheckFailed
         (if float_lt d1 lit_1e_7 && float_gt d1 lit_neg_1e_7
          then "aten::threshold_ only supported for value 0, got"
          else "aten::threshold_ only supported for threshold 0, got")) ∧
  (∀ d, float_lt d lit_1e_7 = true ∧ float_gt d lit_neg_1e_7 = true ↔
        ∃ m e, decode_binary32 d = FFin m e ∧ within_1e_7 m e).
Proof.
  unfold aten_threshold_. split; [|split; [|exact float_near_zero_real]].
  - intros e. split.
    + intros H.
      apply bind_Ok in H as (none0 & H0 & H).
      apply bind_Ok in H0 as (in0 & H0 & Hn0).
      apply bind_Ok in H as (? & Hc0 & H).
      apply TORCH_CHECK_Ok, negb_true_iff in Hc0. subst none0.
      apply bind_Ok in H as (none1 & H1 & H).
      apply bind_Ok in H1 as (in1 & H1 & Hn1).
      apply bind_Ok in H as (? & Hc1 & H).
      apply TORCH_CHECK_Ok, negb_true_iff in Hc1. subst none1.
      apply bind_Ok in H as (none2 & H2 & H).
      apply bind_Ok in H2 as (in2 & H2 & Hn2).
      apply bind_Ok in H as (? & Hc2 & H).
      apply TORCH_CHECK_Ok, negb_true_iff in Hc2. subst none2.
      apply bind_Ok in H as (d1 & Hd1 & H).
      apply bind_Ok in Hd1 as (in1' & H1' & Hd1).
      apply bind_Ok in H as (? & Hlt1 & H). apply TORCH_CHECK_Ok in Hlt1.
      apply bind_Ok in H as (? & Hgt1 & H). apply TORCH_CHECK_Ok in Hgt1.
      apply bind_Ok in H as (d2 & Hd2 & H).
      apply bind_Ok in Hd2 as (in2' & H2' & Hd2).
      apply bind_Ok in H as (? & Hlt2 & H). apply TORCH_CHECK_Ok in Hlt2.
      apply bind_Ok in H as (? & Hgt2 & H). apply TORCH_CHECK_Ok in Hgt2.
      apply bind_Ok in H as (in0' & H0' & H). apply mret_inj in H. subst e.
      apply at_Ok in H0, H1, H2, H0', H1', H2'.
      assert (in0' = in0) by congruence.
      assert (in1' = in1) by congruence.
      assert (in2' = in2) by congruence. subst in0' in1' in2'.
      apply relayToConstant_Ok in Hd1 as (c1 & -> & Hs1 & Hd1).
      apply relayToConstant_Ok in Hd2 as (c2 & -> & Hs2 & Hd2).
      exists in0, c1, c2, d1, d2. repeat (split; [assumption|]). reflexivity.
    + intros (in0 & c1 & c2 & d1 & d2 & H0 & H1 & H2 & Hn0 & Hn1 & Hn2 &
              Hs1 & Hd1 & Hs2 & Hd2 & Hlt1 & Hgt1 & Hlt2 & Hgt2 & ->).
      unfold at_. rewrite H0, H1, H2. simpl deref.
      cbn [mbind result_bind]. rewrite Hn0, Hn1, Hn2.
      cbn [mbind result_bind TORCH_CHECK negb].
      rewrite (proj2 (relayToConstant_Ok as_float (Constant c1) d1)) by eauto.
      rewrite (proj2 (relayToConstant_Ok as_float (Constant c2) d2)) by eauto.
      cbn [mbind result_bind]. rewrite Hlt1, Hgt1.
      cbn [mbind result_bind TORCH_CHECK]. rewrite Hlt2, Hgt2. reflexivity.
  - intros in0 c1 c2 d1 d2 H0 H1 H2 Hn0 Hn1 Hn2 Hs1 Hd1 Hs2 Hd2 Hout.
    unfold at_. rewrite H0, H1, H2. simpl deref.
    cbn [mbind result_bind]. rewrite Hn0, Hn1, Hn2.
    cbn [mbind result_bind TORCH_CHECK negb].
    rewrite (proj2 (relayToConstant_Ok as_float (Constant c1) d1)) by eauto.
    rewrite (proj2 (relayToConstant_Ok as_float (Constant c2) d2)) by eauto.
    cbn [mbind result_bind].
    destruct (float_lt d1 lit_1e_7); [|reflexivity].
    destruct (float_gt d1 lit_neg_1e_7); [|reflexivity].
    destruct (float_lt d2 lit_1e_7); [|reflexivity].
    destruct (float_gt d2 lit_neg_1e_7); [|reflexivity].
    discriminate Hout.
Qed.



(** ** Schedule registration *)

Lemma registerSchedule_Ok name p p' :
  registerSchedule name p = Ok p' ↔
  ∃ sched_f,
    getTVMScheduleMap p !! name = Some sched_f ∧
    is_Some (Registry p !! "relay.op._Register") ∧
    p' = match sched_f (Registry p) with
         | Some sched =>
             {| getTVMScheduleMap := <[name := λ _, None]> (getTVMScheduleMap p);
                getTVMOperatorMap := getTVMOperatorMap p;
                Registry := Registry p;
                op_attrs := op_attrs p ++
                  [{| call_op := name; call_attr := "FTVMSchedule";
                      call_value := sched; call_plevel := 10 |}] |}
         | None => p
         end.
Proof.
  unfold registerSchedule. split.
  - intros H.
    apply bind_Ok in H as (? & _ & H).
    apply bind_Ok in H as (sched_f & Hf & H). apply deref_Ok in Hf.
    apply bind_Ok in H as (? & Hreg & H).
    apply TORCH_INTERNAL_ASSERT_Ok, bool_decide_eq_true in Hreg.
    exists sched_f. split; [assumption|]. split; [assumption|].
    destruct (sched_f (Registry p)); apply mret_inj in H; congruence.
  - intros (sched_f & Hf & [reg Hreg] & ->). rewrite Hf, Hreg. simpl.
    destruct (sched_f (Registry p)); reflexivity.
Qed.

(** C5: [registerSchedule name] fails a fatal assertion when [name] is not
    in the schedule map.  When the stored constructor returns a strategy,
    the call hands it to [relay.op._Register] (once, under the key
    [FTVMSchedule] at priority 10) and stores in its place a constructor
    that returns null; when it returns null nothing changes.  Hence after
    one successful call a second call for the same name leaves the whole
    state as it is, so that the two calls together register the strategy at
    most once. *)
Theorem registerSchedule_at_most_once name p :
  (getTVMScheduleMap p !! name = None → registerSchedule name p = InternalAssert) ∧
  (∀ sched_f sched,
     getTVMScheduleMap p !! name = Some sched_f →
     is_Some (Registry p !! "relay.op._Register") →
     sched_f (Registry p) = Some sched →
     ∃ p1, registerSchedule name p = Ok p1 ∧
       op_attrs p1 = op_attrs p ++
         [{| call_op := name; call_attr := "FTVMSchedule";
             call_value := sched; call_plevel := 10 |}] ∧
       getTVMScheduleMap p1 = <[name := λ _, None]> (getTVMScheduleMap p)) ∧
  (∀ sched_f,
     getTVMScheduleMap p !! name = Some sched_f →
     is_Some (Registry p !! "relay.op._Register") →
     sched_f (Registry p) = None →
     registerSchedule name p = Ok p) ∧
  (∀ p1,
     registerSchedule name p = Ok p1 →
     registerSchedule name p1 = Ok p1 ∧
     (length (op_attrs p1) ≤ length (op_attrs p) + 1)%nat).
Proof.
  split; [|split; [|split]].
  - intros Hnone. unfold registerSchedule. rewrite Hnone. reflexivity.
  - intros sched_f sched Hf Hreg Hs. eexists. split.
    + apply registerSchedule_Ok. exists sched_f. rewrite Hs. eauto.
    + split; reflexivity.
  - intros sched_f Hf Hreg Hs.
    apply registerSchedule_Ok. exists sched_f. rewrite Hs. eauto.
  - intros p1 H. apply registerSchedule_Ok in H as (sched_f & Hf & Hreg & ->).
    destruct (sched_f (Registry p)) as [sched|] eqn:Hs.
    + split.
      * apply registerSchedule_Ok. exists (λ _, None). simpl.
        rewrite lookup_insert_eq. split; [reflexivity|]. split; [assumption|].
        reflexivity.
      * simpl. rewrite length_app. simpl. lia.
    + split.
      * apply registerSchedule_Ok. exists sched_f. rewrite Hs. eauto.
      * lia.
Qed.

Lemma registerSchedule_at_most_once_witness :
  registerSchedule "nn.dense" schedule_process = InternalAssert ∧
  ∃ p1, registerSchedule "nn.conv2d" schedule_process = Ok p1 ∧
        op_attrs p1 =
          [{| call_op := "nn.conv2d"; call_attr := "FTVMSchedule";
              call_value := PackedFuncRef "topi.generic.schedule_conv2d_nchw";
              call_plevel := 10 |}] ∧
        registerSchedule "nn.conv2d" p1 = Ok p1.
Proof.
  split.
  - apply registerSchedule_at_most_once. vm_compute. reflexivity.
  - destruct (registerSchedule_at_most_once "nn.conv2d" schedule_process)
      as (_ & Hinstall & _ & Hagain).
    destruct (Hinstall conv2d_schedule
                (PackedFuncRef "topi.generic.schedule_conv2d_nchw"))
      as (p1 & Hp1 & Hattrs & _).
    + vm_compute. reflexivity.
    + eexists. vm_compute. reflexivity.
    + vm_compute. reflexivity.
    + exists p1. split; [exact Hp1|]. split; [exact Hattrs|].
      apply (Hagain p1 Hp1).
Defined.

(** ** Dispatch *)

Lemma RegisterTVMOperator_lookup ops p k rule :
  getTVMOperatorMap (RegisterTVMOperator ops p) !! k = Some rule →
  (∃ op, op ∈ ops ∧ sym op = k ∧ fn op = rule) ∨
  getTVMOperatorMap p !! k = Some rule.
Proof.
  unfold RegisterTVMOperator. cbn [getTVMOperatorMap].
  generalize (getTVMOperatorMap p). clear p.
  induction ops as [|op ops IH]; intros map; simpl; [auto|].
  intros H. apply IH in H as [(op' & Hin & Hs & Hf)|H].
  - left. exists op'. split; [right; assumption|]. auto.
  - destruct (decide (sym op = k)) as [Hk|Hk].
    + rewrite Hk, lookup_insert_eq in H. injection H as <-.
      left. exists op. split; [left|]. auto.
    + rewrite lookup_insert_ne in H by assumption. auto.
Qed.

Lemma reg_lookup k rule :
  getTVMOperatorMap reg !! k = Some rule → ∃ op, op ∈ reg_ops ∧ fn op = rule.
Proof.
  intros H.
  apply (RegisterTVMOperator_lookup reg_ops empty_process) in H
    as [(op & Hin & _ & Hfn)|Hempty].
  - eauto.
  - unfold empty_process in Hempty. cbn [getTVMOperatorMap] in Hempty.
    rewrite lookup_empty in Hempty. discriminate Hempty.
Qed.

(** Runs a successful call of a rule down to the expression it returns. *)
Ltac to_returned H :=
  repeat first
    [ match type of H with _ <$> _ = Ok _ => apply fmap_Ok in H as (? & H & ->) end
    | apply bind_Ok in H as (? & _ & H)
    | apply mret_inj in H
    | match type of H with
      | (if ?b then _ else _) = Ok _ => destruct b
      end ].

(** No rule of the table returns a null expression. *)
Lemma reg_ops_non_null :
  Forall (λ op, ∀ node inputs e, fn op node inputs = Ok e → e ≠ NullExpr) reg_ops.
Proof.
  unfold reg_ops.
  repeat apply List.Forall_cons; [..|apply List.Forall_nil];
    intros node inputs e H; cbn [fn] in H.
  - unfold aten_add in H. to_returned H. subst e. discriminate.
  - unfold aten_add_ in H. to_returned H. subst e. discriminate.
  - unfold aten__convolution in H. to_returned H; subst e; discriminate.
  - apply aten_batch_norm_Ok in H
      as (? & ? & ? & ? & ? & ? & ? & ? & ? & ? & ? & ? & _ & _ & _ & _ & _ & _ & ->).
    discriminate.
  - unfold aten_relu_ in H. to_returned H. subst e. discriminate.
  - unfold aten_relu in H. to_returned H. subst e. discriminate.
  - unfold aten_threshold_ in H. to_returned H. subst e. discriminate.
  - unfold aten_mul in H. to_returned H. subst e. discriminate.
  - unfold aten_avg_pool2d in H. to_returned H. subst e. discriminate.
  - unfold aten_adaptive_avg_pool2d in H. to_returned H. subst e. discriminate.
  - unfold aten_max_pool2d in H. to_returned H. subst e. discriminate.
  - unfold aten_reshape, aten_reshape_io in H. to_returned H. subst. simpl. discriminate.
  - unfold aten_linear in H. to_returned H; subst e; discriminate.
Qed.

(** C1: for a node whose kind is in the operator map, [isSupported] is true
    and [getOperator] returns what the registered rule returns on the node
    and the inputs; for a node whose kind is not in the map, [isSupported]
    is false and [getOperator] stops at its fatal assertion; and with the
    map as the table of this file fills it, an expression [getOperator]
    returns is never null. *)
Theorem getOperator_dispatch p node inputs :
  (∀ rule, getTVMOperatorMap p !! kind node = Some rule →
           isSupported p node = true ∧
           getOperator p node inputs = rule node inputs) ∧
  (getTVMOperatorMap p !! kind node = None →
   isSupported p node = false ∧ getOperator p node inputs = InternalAssert) ∧
  (getTVMOperatorMap p = getTVMOperatorMap reg →
   ∀ e, getOperator p node inputs = Ok e → e ≠ NullExpr).
Proof.
  assert (Hsome : ∀ rule, getTVMOperatorMap p !! kind node = Some rule →
            isSupported p node = true ∧
            getOperator p node inputs = rule node inputs).
  { intros rule Hrule. unfold getOperator, isSupported. rewrite Hrule.
    split; reflexivity. }
  split; [exact Hsome|]. split.
  - intros Hnone. unfold getOperator, isSupported. rewrite Hnone.
    split; reflexivity.
  - intros Hmap e He.
    destruct (getTVMOperatorMap p !! kind node) as [rule|] eqn:Hrule.
    + destruct (Hsome rule eq_refl) as [_ Hget]. rewrite Hget in He.
      rewrite Hmap in Hrule.
      apply reg_lookup in Hrule as (op & Hin & <-).
      pose proof reg_ops_non_null as Hall.
      rewrite Forall_forall in Hall. exact (Hall op Hin node inputs e He).
    + unfold getOperator, isSupported in He. rewrite Hrule in He.
      discriminate He.
Qed.

Lemma getOperator_dispatch_witness :
  let relu_node := {| kind := "aten::relu"; inputs_ := []; outputs := [] |} in
  let sub_node := {| kind := "aten::sub"; inputs_ := []; outputs := [] |} in
  (isSupported reg relu_node = true ∧
   getOperator reg relu_node [Var "x" NullType] =
     aten_relu relu_node [Var "x" NullType]) ∧
  (isSupported reg sub_node = false ∧
   getOperator reg sub_node [Var "x" NullType] = InternalAssert) ∧
  Call "nn.relu" [Var "x" NullType] NullAttrs ≠ NullExpr.
Proof.
  split; [|split].
  - apply getOperator_dispatch. vm_compute. reflexivity.
  - apply getOperator_dispatch. vm_compute. reflexivity.
  - apply (proj2 (proj2 (getOperator_dispatch reg
             {| kind := "aten::relu"; inputs_ := []; outputs := [] |}
             [Var "x" NullType])) eq_refl).
    vm_compute. reflexivity.
Defined.

(** * Further properties of the registries *)

Lemma register_fold_notin (ops : list TVMOpMap) (map : gmap Symbol TVMOpFunctor) k :
  k ∉ sym <$> ops →
  foldl (λ map op, <[sym op := fn op]> map) map ops !! k = map !! k.
Proof.
  revert map. induction ops as [|op ops IH]; intros map Hk; [reflexivity|].
  rewrite fmap_cons, not_elem_of_cons in Hk. destruct Hk as [Hne Hk].
  simpl. rewrite IH by assumption. apply lookup_insert_ne. congruence.
Qed.

Lemma register_fold_last (ops1 ops2 : list TVMOpMap) op
    (map : gmap Symbol TVMOpFunctor) :
  sym op ∉ sym <$> ops2 →
  foldl (λ map op, <[sym op := fn op]> map) map (ops1 ++ op :: ops2) !! sym op =
    Some (fn op).
Proof.
  intros Hlast. rewrite foldl_app. simpl.
  rewrite register_fold_notin by assumption. apply lookup_insert_eq.
Qed.

Lemma getOperator_lookup p node inputs rule :
  getTVMOperatorMap p !! kind node = Some rule →
  isSupported p node = true ∧ getOperator p node inputs = rule node inputs.
Proof.
  intros Hrule. unfold getOperator, isSupported. rewrite Hrule.
  split; reflexivity.
Qed.

(** X1: a later registration of a symbol replaces an earlier one: after
    the constructor has run over a table, a node is dispatched to the rule of
    the last entry for its kind, whatever the table or the map held for that
    kind before. *)
Theorem RegisterTVMOperator_last_wins ops1 op ops2 p node inputs :
  kind node = sym op →
  sym op ∉ sym <$> ops2 →
  isSupported (RegisterTVMOperator (ops1 ++ op :: ops2) p) node = true ∧
  getOperator (RegisterTVMOperator (ops1 ++ op :: ops2) p) node inputs =
    fn op node inputs.
Proof.
  intros Hkind Hlast. apply getOperator_lookup.
  unfold RegisterTVMOperator. cbn [getTVMOperatorMap].
  rewrite Hkind. apply register_fold_last. assumption.
Qed.

Lemma RegisterTVMOperator_last_wins_witness :
  let node := {| kind := "aten::relu"; inputs_ := []; outputs := [] |} in
  let p := RegisterTVMOperator
             [{| sym := "aten::relu"; fn := aten_relu; name := "relu" |};
              {| sym := "aten::relu"; fn := aten_mul; name := "" |};
              {| sym := "aten::mul"; fn := aten_mul; name := "" |}] reg in
  isSupported p node = true ∧
  getOperator p node [Var "x" NullType] = aten_mul node [Var "x" NullType].
Proof.
  apply (RegisterTVMOperator_last_wins
           [{| sym := "aten::relu"; fn := aten_relu; name := "relu" |}]
           {| sym := "aten::relu"; fn := aten_mul; name := "" |}
           [{| sym := "aten::mul"; fn := aten_mul; name := "" |}]).
  - reflexivity.
  - refine (bool_decide_unpack _ _). vm_compute. exact I.
Defined.

(** X2: the constructor touches nothing but the entries of the symbols in
    its table: a node of any other kind is supported and dispatched as
    before, and the schedule map, the runtime's registry and the
    registrations made so far are left as they were. *)
Theorem RegisterTVMOperator_frame ops p node inputs :
  kind node ∉ sym <$> ops →
  isSupported (RegisterTVMOperator ops p) node = isSupported p node ∧
  getOperator (RegisterTVMOperator ops p) node inputs = getOperator p node inputs ∧
  getTVMScheduleMap (RegisterTVMOperator ops p) = getTVMScheduleMap p ∧
  Registry (RegisterTVMOperator ops p) = Registry p ∧
  op_attrs (RegisterTVMOperator ops p) = op_attrs p.
Proof.
  intros Hkind.
  assert (Hmap : getTVMOperatorMap (RegisterTVMOperator ops p) !! kind node =
                 getTVMOperatorMap p !! kind node)
    by (apply register_fold_notin; assumption).
  unfold getOperator, isSupported. rewrite Hmap.
  repeat split; reflexivity.
Qed.

Lemma RegisterTVMOperator_frame_witness :
  let node := {| kind := "aten::relu"; inputs_ := []; outputs := [] |} in
  let p := RegisterTVMOperator
             [{| sym := "aten::mul"; fn := aten_relu; name := "" |}] reg in
  isSupported p node = isSupported reg node ∧
  getOperator p node [Var "x" NullType] = getOperator reg node [Var "x" NullType] ∧
  getTVMScheduleMap p = getTVMScheduleMap reg ∧
  Registry p = Registry reg ∧
  op_attrs p = op_attrs reg.
Proof.
  apply (RegisterTVMOperator_frame
           [{| sym := "aten::mul"; fn := aten_relu; name := "" |}] reg).
  refine (bool_decide_unpack _ _). vm_compute. exact I.
Defined.

Lemma register_NoDup_lookup (ops : list TVMOpMap) op p :
  NoDup (sym <$> ops) → op ∈ ops →
  getTVMOperatorMap (RegisterTVMOperator ops p) !! sym op = Some (fn op).
Proof.
  intros Hnd Hin.
  apply list_elem_of_split in Hin as (ops1 & ops2 & ->).
  unfold RegisterTVMOperator. cbn [getTVMOperatorMap].
  apply register_fold_last.
  rewrite fmap_app, fmap_cons in Hnd.
  apply NoDup_app in Hnd as (_ & _ & Hnd).
  apply NoDup_cons in Hnd as [Hnotin _]. exact Hnotin.
Qed.

Lemma reg_ops_NoDup : NoDup (sym <$> reg_ops).
Proof. refine (bool_decide_unpack _ _). vm_compute. exact I. Qed.

(** X3: once the table of this file is registered in a fresh process, the
    supported kinds are exactly its thirteen symbols, and a node of each of
    them is dispatched to the rule written next to the symbol. *)
Theorem reg_table_dispatch node :
  (isSupported reg node = true ↔
   kind node ∈ ["aten::add"; "aten::add_"; "aten::_convolution";
                "aten::batch_norm"; "aten::relu_"; "aten::relu";
                "aten::threshold_"; "aten::mul"; "aten::avg_pool2d";
                "aten::adaptive_avg_pool2d"; "aten::max_pool2d";
                "aten::reshape"; "aten::linear"]) ∧
  (∀ op inputs, op ∈ reg_ops → kind node = sym op →
                getOperator reg node inputs = fn op node inputs).
Proof.
  split.
  - change ["aten::add"; "aten::add_"; "aten::_convolution";
            "aten::batch_norm"; "aten::relu_"; "aten::relu";
            "aten::threshold_"; "aten::mul"; "aten::avg_pool2d";
            "aten::adaptive_avg_pool2d"; "aten::max_pool2d";
            "aten::reshape"; "aten::linear"] with (sym <$> reg_ops).
    unfold isSupported. rewrite bool_decide_eq_true. split.
    + intros [rule Hrule].
      apply (RegisterTVMOperator_lookup reg_ops empty_process) in Hrule
        as [(op & Hin & Hsym & _)|Hempty].
      * rewrite <- Hsym. apply list_elem_of_fmap_2. exact Hin.
      * unfold empty_process in Hempty. cbn [getTVMOperatorMap] in Hempty.
        rewrite lookup_empty in Hempty. discriminate Hempty.
    + intros Hin. apply list_elem_of_fmap in Hin as (op & Hsym & Hin).
      exists (fn op). rewrite Hsym.
      apply (register_NoDup_lookup reg_ops op empty_process reg_ops_NoDup Hin).
  - intros op inputs Hin Hkind.
    apply getOperator_lookup. rewrite Hkind.
    apply (register_NoDup_lookup reg_ops op empty_process reg_ops_NoDup Hin).
Qed.

Lemma reg_table_dispatch_witness :
  let node := {| kind := "aten::max_pool2d"; inputs_ := []; outputs := [] |} in
  isSupported reg node = true ∧
  getOperator reg node (max_pool2d_inputs []) = aten_max_pool2d node (max_pool2d_inputs []).
Proof.
  destruct (reg_table_dispatch
              {| kind := "aten::max_pool2d"; inputs_ := []; outputs := [] |})
    as [Hsupp Hdisp].
  split.
  - apply Hsupp. vm_compute. do 10 right. left.
  - apply (Hdisp {| sym := "aten::max_pool2d"; fn := aten_max_pool2d; name := "" |}).
    + unfold reg_ops. do 10 right. left.
    + reflexivity.
Defined.

(** * Further properties of the schedule registration *)

(** X4: without [relay.op._Register] in the runtime's registry
    [registerSchedule] fails a fatal assertion, for every name.  A call that
    returns keeps the operator map (so dispatch is unaffected), the
    runtime's registry, the entries of every other name and an entry for the
    name itself, and only adds to the end of the registrations made so far. *)
Theorem registerSchedule_frame name p :
  (Registry p !! "relay.op._Register" = None →
   registerSchedule name p = InternalAssert) ∧
  (∀ p1, registerSchedule name p = Ok p1 →
     getTVMOperatorMap p1 = getTVMOperatorMap p ∧
     Registry p1 = Registry p ∧
     (∀ other, other ≠ name →
        getTVMScheduleMap p1 !! other = getTVMScheduleMap p !! other) ∧
     is_Some (getTVMScheduleMap p1 !! name) ∧
     op_attrs p `prefix_of` op_attrs p1 ∧
     (∀ node inputs, getOperator p1 node inputs = getOperator p node inputs)).
Proof.
  split.
  - intros Hreg. unfold registerSchedule. rewrite Hreg.
    destruct (getTVMScheduleMap p !! name); reflexivity.
  - intros p1 H. apply registerSchedule_Ok in H as (sched_f & Hf & Hreg & ->).
    destruct (sched_f (Registry p)) as [sched|].
    + cbn [getTVMOperatorMap Registry getTVMScheduleMap op_attrs].
      split; [reflexivity|]. split; [reflexivity|].
      split; [intros other Hne; apply lookup_insert_ne; congruence|].
      split; [rewrite lookup_insert_eq; eauto|].
      split; [apply prefix_app_r; reflexivity|]. reflexivity.
    + split; [reflexivity|]. split; [reflexivity|].
      split; [reflexivity|]. split; [rewrite Hf; eauto|].
      split; reflexivity.
Qed.

Lemma registerSchedule_frame_witness :
  registerSchedule "nn.conv2d" (RegisterTVMOperatorSchedule
                                  [("nn.conv2d", conv2d_schedule)] reg) =
    InternalAssert ∧
  ∃ p1, registerSchedule "nn.conv2d" schedule_process = Ok p1 ∧
        Registry p1 = Registry schedule_process ∧
        op_attrs schedule_process `prefix_of` op_attrs p1.
Proof.
  split.
  - apply registerSchedule_frame. vm_compute. reflexivity.
  - eexists. split; [vm_compute; reflexivity|].
    match goal with |- Registry ?p1 = _ ∧ _ =>
      destruct (proj2 (registerSchedule_frame "nn.conv2d" schedule_process) p1)
        as (_ & Hreg & _ & _ & Hpre & _)
    end; [vm_compute; reflexivity|].
    split; [exact Hreg|exact Hpre].
Defined.

Lemma armed_spent name (p : Process) map ops attrs :
  armed {| getTVMScheduleMap := <[name := λ _, None]> map;
           getTVMOperatorMap := ops; Registry := Registry p;
           op_attrs := attrs |} name = false.
Proof. unfold armed. cbn. rewrite lookup_insert_eq. reflexivity. Qed.

Lemma armed_other name other (p : Process) f ops attrs :
  other ≠ name →
  armed {| getTVMScheduleMap := <[name := f]> (getTVMScheduleMap p);
           getTVMOperatorMap := ops; Registry := Registry p;
           op_attrs := attrs |} other = armed p other.
Proof.
  intros Hne. unfold armed. cbn.
  rewrite lookup_insert_ne by congruence. reflexivity.
Qed.

Lemma registerSchedule_armed name p p1 :
  registerSchedule name p = Ok p1 →
  armed p1 name = false ∧
  (∀ other, other ≠ name → armed p1 other = armed p other) ∧
  ∃ new, op_attrs p1 = op_attrs p ++ new ∧
         Forall (λ c, call_op c = name ∧ call_attr c = "FTVMSchedule" ∧
                      call_plevel c = 10) new ∧
         length new = if armed p name then 1%nat else 0%nat.
Proof.
  intros H. apply registerSchedule_Ok in H as (sched_f & Hf & Hreg & ->).
  assert (Harm : armed p name = bool_decide (is_Some (sched_f (Registry p))))
    by (unfold armed; rewrite Hf; reflexivity).
  rewrite Harm. clear Harm.
  destruct (sched_f (Registry p)) as [sched|] eqn:Hs.
  - split; [apply armed_spent|].
    split; [intros other Hne; apply armed_other; assumption|].
    eexists. cbn [op_attrs]. split; [reflexivity|].
    split; [repeat constructor|reflexivity].
  - split; [unfold armed; rewrite Hf, Hs; reflexivity|].
    split; [reflexivity|].
    exists []. rewrite app_nil_r. split; [reflexivity|].
    split; [constructor|reflexivity].
Qed.

Lemma registerSchedules_armed_mono names p p' :
  registerSchedules names p = Ok p' →
  ∀ name, armed p' name = true → armed p name = true.
Proof.
  revert p. induction names as [|name names IH]; intros p H other Ha.
  - apply mret_inj in H. subst p'. exact Ha.
  - simpl in H. apply bind_Ok in H as (p1 & H1 & H).
    apply (IH _ H) in Ha.
    apply registerSchedule_armed in H1 as (Hspent & Hother & _).
    destruct (decide (other = name)) as [->|Hne]; [congruence|].
    rewrite <- (Hother other Hne). exact Ha.
Qed.

(** X5: a run of [registerSchedule] calls that returns registers each name
    at most once however often the name occurs: the registrations it adds
    come after those made before, bear pairwise different operator names,
    are all under the key [FTVMSchedule] at priority 10, and are for exactly
    those of the names whose constructor handed out a strategy at the start;
    afterwards no constructor of a called name hands one out. *)
Theorem registerSchedules_once names p p' :
  registerSchedules names p = Ok p' →
  ∃ new,
    op_attrs p' = op_attrs p ++ new ∧
    NoDup (call_op <$> new) ∧
    (∀ name, name ∈ call_op <$> new ↔ name ∈ names ∧ armed p name = true) ∧
    Forall (λ c, call_attr c = "FTVMSchedule" ∧ call_plevel c = 10) new ∧
    (∀ name, name ∈ names → armed p' name = false).
Proof.
  revert p. induction names as [|name names IH]; intros p H.
  - apply mret_inj in H. subst p'. exists []. rewrite app_nil_r.
    split; [reflexivity|]. split; [constructor|].
    split; [|split; [constructor|]].
    + intros name. split.
      * intros Hin. apply elem_of_nil in Hin. destruct Hin.
      * intros [Hin _]. apply elem_of_nil in Hin. destruct Hin.
    + intros name Hin. apply elem_of_nil in Hin. destruct Hin.
  - simpl in H. apply bind_Ok in H as (p1 & H1 & H).
    pose proof (registerSchedules_armed_mono _ _ _ H) as Hmono.
    apply IH in H as (new & Hattrs & Hnd & Hmem & Hall & Hspent). clear IH.
    apply registerSchedule_armed in H1
      as (Hspent1 & Hother & new1 & Hattrs1 & Hall1 & Hlen1).
    exists (new1 ++ new).
    split; [rewrite Hattrs, Hattrs1, <- app_assoc; reflexivity|].
    assert (Hnew1 : call_op <$> new1 = if armed p name then [name] else []).
    { destruct (armed p name).
      - destruct new1 as [|c [|? ?]]; try discriminate Hlen1.
        apply Forall_cons in Hall1 as [(Hc & _) _]. cbn. rewrite Hc. reflexivity.
      - destruct new1; [reflexivity|discriminate Hlen1]. }
    split; [|split; [|split]].
    + rewrite fmap_app, Hnew1. destruct (armed p name); [|exact Hnd].
      apply NoDup_cons. split; [|exact Hnd].
      intros Hin. apply Hmem in Hin as [_ Hin]. congruence.
    + intros other. rewrite fmap_app, elem_of_app, Hnew1, Hmem, elem_of_cons.
      destruct (decide (other = name)) as [->|Hne].
      * rewrite Hspent1. destruct (armed p name).
        -- rewrite list_elem_of_singleton. intuition congruence.
        -- rewrite elem_of_nil. intuition congruence.
      * rewrite (Hother other Hne). destruct (armed p name).
        -- rewrite list_elem_of_singleton. intuition congruence.
        -- rewrite elem_of_nil. intuition congruence.
    + apply Forall_app. split; [|exact Hall].
      eapply Forall_impl; [exact Hall1|]. intros c (_ & ? & ?). auto.
    + intros other Hin. apply elem_of_cons in Hin as [->|Hin]; [|auto].
      destruct (armed p' name) eqn:Ha; [|reflexivity].
      apply Hmono in Ha. congruence.
Qed.

Lemma registerSchedules_once_witness :
  ∃ p' new,
    registerSchedules ["nn.conv2d"; "nn.conv2d"; "nn.conv2d"] schedule_process = Ok p' ∧
    op_attrs p' = op_attrs schedule_process ++ new ∧
    NoDup (call_op <$> new) ∧
    armed p' "nn.conv2d" = false.
Proof.
  assert (Hrun : ∃ p', registerSchedules ["nn.conv2d"; "nn.conv2d"; "nn.conv2d"]
                         schedule_process = Ok p')
    by (eexists; vm_compute; reflexivity).
  destruct Hrun as [p' Hrun].
  destruct (registerSchedules_once _ _ _ Hrun) as (new & Hattrs & Hnd & _ & _ & Hspent).
  exists p', new. split; [exact Hrun|]. split; [exact Hattrs|].
  split; [exact Hnd|]. apply Hspent. left.
Defined.

Lemma schedule_fold_notin (scheds : list (string * TVMScheduleFunctor))
    (map : gmap string TVMScheduleFunctor) name :
  name ∉ fst <$> scheds →
  foldl (λ map pair, let name := pair.1 in let sched_f := pair.2 in
                     <[name := sched_f]> map) map scheds !! name = map !! name.
Proof.
  revert map. induction scheds as [|[n f] scheds IH]; intros map Hk; [reflexivity|].
  rewrite fmap_cons, not_elem_of_cons in Hk. destruct Hk as [Hne Hk].
  simpl. rewrite IH by assumption. apply lookup_insert_ne. simpl in Hne. congruence.
Qed.

(** X6: declaring a schedule again arms it again: whatever the schedule
    map held for the name, a spent constructor included, after
    [RegisterTVMOperatorSchedule] has run over a list whose last entry for
    the name is a constructor that hands out a strategy, [registerSchedule]
    registers that strategy. *)
Theorem RegisterTVMOperatorSchedule_rearms scheds1 scheds2 name
    (sched_f : TVMScheduleFunctor) sched p :
  name ∉ fst <$> scheds2 →
  is_Some (Registry p !! "relay.op._Register") →
  sched_f (Registry p) = Some sched →
  ∃ p1,
    registerSchedule name
      (RegisterTVMOperatorSchedule (scheds1 ++ (name, sched_f) :: scheds2) p) = Ok p1 ∧
    op_attrs p1 = op_attrs p ++
      [{| call_op := name; call_attr := "FTVMSchedule";
          call_value := sched; call_plevel := 10 |}].
Proof.
  intros Hlast Hreg Hs. eexists. split.
  - apply registerSchedule_Ok. exists sched_f.
    split; [|split; [exact Hreg|reflexivity]].
    unfold RegisterTVMOperatorSchedule. cbn [getTVMScheduleMap].
    rewrite foldl_app. simpl.
    rewrite schedule_fold_notin by assumption. apply lookup_insert_eq.
  - cbn [Registry RegisterTVMOperatorSchedule]. rewrite Hs. reflexivity.
Qed.

Lemma RegisterTVMOperatorSchedule_rearms_witness :
  ∃ p1 p2,
    registerSchedule "nn.conv2d" schedule_process = Ok p1 ∧
    registerSchedule "nn.conv2d"
      (RegisterTVMOperatorSchedule [("nn.conv2d", conv2d_schedule)] p1) = Ok p2 ∧
    call_op <$> op_attrs p2 = ["nn.conv2d"; "nn.conv2d"].
Proof.
  assert (Hrun : ∃ p1, registerSchedule "nn.conv2d" schedule_process = Ok p1)
    by (eexists; vm_compute; reflexivity).
  destruct Hrun as [p1 Hrun].
  destruct (RegisterTVMOperatorSchedule_rearms [] [] "nn.conv2d" conv2d_schedule
              (PackedFuncRef "topi.generic.schedule_conv2d_nchw") p1)
    as (p2 & Hp2 & Hattrs).
  - refine (bool_decide_unpack _ _). vm_compute. exact I.
  - vm_compute in Hrun. injection Hrun as <-. eexists. vm_compute. reflexivity.
  - vm_compute in Hrun. injection Hrun as <-. vm_compute. reflexivity.
  - exists p1, p2. split; [exact Hrun|]. split; [exact Hp2|].
    rewrite Hattrs. vm_compute in Hrun. injection Hrun as <-. reflexivity.
Defined.

(** * Further properties of the rules *)

Lemma aten__convolution_inv node inputs e :
  aten__convolution node inputs = Ok e →
  ∃ in0 in1 in2 op attrs,
    inputs !! 0%nat = Some in0 ∧ inputs !! 1%nat = Some in1 ∧
    inputs !! 2%nat = Some in2 ∧
    (op = "nn.conv2d" ∨ op = "nn.conv2d_transpose") ∧
    kernel_size_of in1 = Ok (conv_kernel_size attrs) ∧
    e = if isConstant in2 then Call op [in0; in1] (AttrsConv2D attrs)
        else Call "nn.bias_add" [Call op [in0; in1] (AttrsConv2D attrs); in2]
               (AttrsBiasAdd 1).
Proof.
  unfold aten__convolution. intros H.
  apply bind_Ok in H as (is_transpose & _ & H).
  apply bind_Ok in H as (in0 & H0 & H).
  apply bind_Ok in H as (in1 & H1 & H).
  apply bind_Ok in H as (groups & _ & H).
  apply bind_Ok in H as (kernel_size & Hk & H).
  apply bind_Ok in H as (strides & _ & H).
  apply bind_Ok in H as (padding & _ & H).
  apply bind_Ok in H as (dilation & _ & H).
  apply bind_Ok in H as (in2 & H2 & H).
  apply at_Ok in H0, H1, H2.
  exists in0, in1, in2,
    (if is_transpose then "nn.conv2d_transpose" else "nn.conv2d"),
    {| conv_strides := strides; conv_padding := padding;
       conv_dilation := dilation; conv_groups := groups;
       conv_kernel_size := kernel_size;
       conv_data_layout := "NCHW"; conv_kernel_layout := "OIHW" |}.
  repeat (split; [assumption|]).
  split; [destruct is_transpose; auto|]. split; [exact Hk|].
  fold (isConstant in2) in H.
  destruct (isConstant in2); simpl in H; apply mret_inj in H; subst e; reflexivity.
Qed.

(** X7: the kernel size the convolution rule emits.  When the rule
    returns, the attribute is the pair of dimensions 2 and 3 of the weight's
    annotated tensor shape if the weight (input 1) is a variable, and is left
    null if the weight is anything else.  With the flag and the group count
    read, a weight variable whose annotation is not a tensor type fails the
    fatal assertion, and one whose annotated shape has fewer than four
    dimensions is indexed past its end. *)
Theorem aten__convolution_kernel_size node inputs :
  (∀ e, aten__convolution node inputs = Ok e →
     ∃ in1 a,
       inputs !! 1%nat = Some in1 ∧ conv_attrs_of e = Some a ∧
       match in1 with
       | Var _ (TensorType shape _) =>
           ∃ s2 s3, shape !! 2%nat = Some s2 ∧ shape !! 3%nat = Some s3 ∧
                    conv_kernel_size a = Some [s2; s3]
       | Var _ _ => False
       | _ => conv_kernel_size a = None
       end) ∧
  (∀ in0 in6 in8 flag groups x ty,
     inputs !! 0%nat = Some in0 → inputs !! 1%nat = Some (Var x ty) →
     inputs !! 6%nat = Some in6 → inputs !! 8%nat = Some in8 →
     relayToConstant as_bool in6 = Ok flag →
     relayToConstant as_int in8 = Ok groups →
     match ty with
     | TensorType shape _ =>
         (length shape < 4)%nat → aten__convolution node inputs = Undefined
     | _ => aten__convolution node inputs = InternalAssert
     end).
Proof.
  split.
  - intros e H.
    apply aten__convolution_inv in H
      as (in0 & in1 & in2 & op & attrs & H0 & H1 & H2 & _ & Hk & ->).
    exists in1, attrs. split; [exact H1|].
    split; [destruct (isConstant in2); reflexivity|].
    destruct in1 as [| |x ty| | |]; simpl in Hk;
      try (apply mret_inj in Hk; congruence).
    destruct ty as [|shape dt|]; try discriminate Hk.
    apply bind_Ok in Hk as (s2 & Hs2 & Hk).
    apply bind_Ok in Hk as (s3 & Hs3 & Hk).
    apply at_Ok in Hs2, Hs3. apply mret_inj in Hk. eauto.
  - intros in0 in6 in8 flag groups x ty H0 H1 H6 H8 Hflag Hgroups.
    unfold aten__convolution, at_. rewrite H0, H1, H6, H8. simpl.
    rewrite Hflag. simpl. rewrite Hgroups. simpl.
    destruct ty as [|shape dt|]; try reflexivity.
    intros Hlen. unfold at_.
    destruct (shape !! 2%nat) as [s2|] eqn:Hs2; [|reflexivity]. simpl.
    rewrite (lookup_ge_None_2 shape 3) by lia. reflexivity.
Qed.

Lemma aten__convolution_kernel_size_witness :
  let node := {| kind := "aten::_convolution"; inputs_ := []; outputs := [] |} in
  let float32 := String2TVMType "float32" in
  let weight := Var "w" (TensorType [IntImm 64; IntImm 3; IntImm 7; IntImm 5] float32) in
  (∃ e a, aten__convolution node (weighted_conv_inputs weight) = Ok e ∧
          conv_attrs_of e = Some a ∧
          conv_kernel_size a = Some [IntImm 7; IntImm 5]) ∧
  aten__convolution node (weighted_conv_inputs (Var "w" NullType)) = InternalAssert ∧
  aten__convolution node
    (weighted_conv_inputs (Var "w" (TensorType [IntImm 64; IntImm 3] float32))) =
    Undefined.
Proof.
  split; [|split].
  - assert (Hrun : ∃ e, aten__convolution
                          {| kind := "aten::_convolution"; inputs_ := []; outputs := [] |}
                          (weighted_conv_inputs
                             (Var "w" (TensorType [IntImm 64; IntImm 3; IntImm 7; IntImm 5]
                                         (String2TVMType "float32")))) = Ok e)
      by (eexists; vm_compute; reflexivity).
    destruct Hrun as [e Hrun].
    destruct (proj1 (aten__convolution_kernel_size _ _) e Hrun)
      as (in1 & a & H1 & Ha & Hk).
    injection H1 as <-. destruct Hk as (s2 & s3 & [= <-] & [= <-] & Hk).
    eauto.
  - apply (proj2 (aten__convolution_kernel_size
                    {| kind := "aten::_convolution"; inputs_ := []; outputs := [] |}
                    (weighted_conv_inputs (Var "w" NullType)))
             (Var "x" NullType) (bool_scalar false) (int32_scalar 1) false 1
             "w" NullType); reflexivity.
  - apply (proj2 (aten__convolution_kernel_size
                    {| kind := "aten::_convolution"; inputs_ := []; outputs := [] |}
                    (weighted_conv_inputs
                       (Var "w" (TensorType [IntImm 64; IntImm 3]
                                   (String2TVMType "float32")))))
             (Var "x" NullType) (bool_scalar false) (int32_scalar 1) false 1
             "w" (TensorType [IntImm 64; IntImm 3] (String2TVMType "float32")));
      try reflexivity.
    simpl. lia.
Defined.

(** ** Decoding tuples *)

Lemma relayToArray_app_ok {T} (of_int : Z → T) good rest :
  Forall (λ f, ∃ v, relayToConstant as_int f = Ok v) good →
  ∃ xs, relayToArray of_int (Tuple (good ++ rest)) =
        ys ← relayToArray of_int (Tuple rest); mret (xs ++ ys).
Proof.
  unfold relayToArray. simpl.
  induction 1 as [|f good [v Hv] _ [xs IH]]; simpl.
  - exists []. destruct (mapM _ rest); reflexivity.
  - exists (of_int v :: xs). rewrite Hv. simpl. rewrite IH.
    destruct (mapM _ rest); reflexivity.
Qed.

(** X8: the fields of a tuple are read in order and the first one that
    cannot be read decides the outcome, whatever follows it: after fields
    that can be read, a field that is not a scalar constant is a fatal
    assertion, and a scalar constant holding fewer than the four bytes of an
    [int] is read past its end. *)
Theorem relayToArray_first_failure {T} (of_int : Z → T) good bad rest :
  Forall (λ f, ∃ v, relayToConstant as_int f = Ok v) good →
  ((∀ c, bad = Constant c → is_scalar c = false) →
   relayToArray of_int (Tuple (good ++ bad :: rest)) = InternalAssert) ∧
  (∀ c, bad = Constant c → is_scalar c = true → (length (data c) < 4)%nat →
        relayToArray of_int (Tuple (good ++ bad :: rest)) = Undefined).
Proof.
  intros Hgood.
  destruct (relayToArray_app_ok of_int good (bad :: rest) Hgood) as [xs ->].
  split.
  - intros Hbad. unfold relayToArray. simpl.
    rewrite (relayToConstant_assert as_int bad Hbad). reflexivity.
  - intros c -> Hs Hlen. unfold relayToArray, relayToConstant. simpl.
    rewrite Hs. simpl. unfold as_int, load.
    destruct (decide (4 ≤ length (data c))%nat); [lia|reflexivity].
Qed.

Lemma relayToArray_first_failure_witness :
  relayToArray IntImm
    (Tuple [int32_scalar 3; Var "k" NullType; bool_scalar true]) = InternalAssert ∧
  relayToArray IntImm
    (Tuple [int32_scalar 3; bool_scalar true; Var "k" NullType]) = Undefined.
Proof.
  split.
  - apply (relayToArray_first_failure IntImm [int32_scalar 3] (Var "k" NullType)
             [bool_scalar true]).
    + constructor; [|constructor]. exists 3. reflexivity.
    + intros c Hc. discriminate Hc.
  - apply (relayToArray_first_failure IntImm [int32_scalar 3] (bool_scalar true)
             [Var "k" NullType]) with (c := scalar_of "bool" 1 1).
    + constructor; [|constructor]. exists 3. reflexivity.
    + reflexivity.
    + reflexivity.
    + simpl. lia.
Defined.

Lemma byte_val_of_Z v : byte_val (byte_of_Z v) = v mod 256.
Proof.
  unfold byte_val, byte_of_Z.
  pose proof (Z.mod_pos_bound v 256 eq_refl) as Hb.
  destruct (Byte.of_N (Z.to_N (v mod 256))) as [b|] eqn:Hof.
  - simpl. apply Byte.to_of_N in Hof. rewrite Hof. apply Z2N.id. lia.
  - apply Byte.of_N_None_iff in Hof. lia.
Qed.

Lemma le_word_le_bytes n v : le_word (le_bytes n v) = v mod 256 ^ Z.of_nat n.
Proof.
  revert v. induction n as [|n IH]; intros v.
  - simpl. rewrite Z.mod_1_r. reflexivity.
  - cbn [le_bytes le_word]. rewrite byte_val_of_Z, IH.
    rewrite Nat2Z.inj_succ, Z.pow_succ_r by lia.
    rewrite Z.rem_mul_r by (try apply Z.pow_pos_nonneg; lia). reflexivity.
Qed.

Lemma length_le_bytes n v : length (le_bytes n v) = n.
Proof. revert v. induction n as [|n IH]; intros v; simpl; [|rewrite IH]; reflexivity. Qed.

Lemma as_int_le_bytes mem v :
  take 4 mem = le_bytes 4 v → - 2 ^ 31 ≤ v < 2 ^ 31 → as_int mem = Some v.
Proof.
  intros Hmem Hv. unfold as_int, load.
  assert (Hlen : (4 ≤ length mem)%nat).
  { apply (f_equal length) in Hmem.
    rewrite length_take, length_le_bytes in Hmem. lia. }
  destruct (decide (4 ≤ length mem)%nat); [|lia].
  rewrite Hmem, le_word_le_bytes. simpl. f_equal.
  unfold wrap_signed. change (256 ^ Z.of_nat 4) with (2 ^ 32).
  destruct (decide (0 ≤ v)) as [Hpos|Hneg].
  - rewrite Z.mod_small by lia. destruct (decide (v < 2 ^ (32 - 1))); lia.
  - replace (v mod 2 ^ 32) with (v + 2 ^ 32)
      by (apply Z.mod_unique with (-1); lia).
    destruct (decide (v + 2 ^ 32 < 2 ^ (32 - 1))); lia.
Qed.

(** X9: reading back what was stored.  A tuple whose fields are scalar
    constants that start with the four-byte little-endian two's-complement
    encodings of 32-bit integers decodes to exactly those integers, in order,
    negative ones included. *)
Theorem relayToArray_decodes_int32 {T} (of_int : Z → T) fields vs :
  Forall2 (λ f v, ∃ c, f = Constant c ∧ is_scalar c = true ∧
                       take 4 (data c) = le_bytes 4 v ∧
                       - 2 ^ 31 ≤ v < 2 ^ 31) fields vs →
  relayToArray of_int (Tuple fields) = Ok (of_int <$> vs).
Proof.
  intros H. apply relayToArray_Tuple.
  induction H as [|f v fields vs (c & -> & Hs & Hmem & Hv) _ IH]; simpl.
  - constructor.
  - constructor; [|exact IH].
    exists c, v. repeat split; try assumption.
    apply as_int_le_bytes; assumption.
Qed.

Lemma relayToArray_decodes_int32_witness :
  relayToArray id (int_tuple [-1; 4; 2147483647; -2147483648]) =
    Ok [-1; 4; 2147483647; -2147483648].
Proof.
  apply (relayToArray_decodes_int32 id _ [-1; 4; 2147483647; -2147483648]).
  repeat constructor; eexists; (split; [reflexivity|]);
    (split; [reflexivity|]); (split; [reflexivity|]); lia.
Defined.

(** ** Reshape *)

(** X10: [aten::reshape] returns exactly when input 1 decodes to a
    non-empty shape; the result is [reshape] of input 0 with that shape and
    [reverse] off, and the warning goes to [std::cerr] exactly when the first
    dimension is not -1.  An empty shape fails the fatal assertion.  The
    table's entry returns the same expression. *)
Theorem aten_reshape_warns node inputs :
  (∀ cerr e,
     aten_reshape_io node inputs = Ok (cerr, e) ↔
     ∃ in0 in1 d ds,
       inputs !! 0%nat = Some in0 ∧ inputs !! 1%nat = Some in1 ∧
       relayToArray id in1 = Ok (d :: ds) ∧
       e = Call "reshape" [in0]
             (AttrsReshape {| newshape := d :: ds; reverse := false |}) ∧
       cerr = if decide (d = -1) then [] else [reshape_warning]) ∧
  (∀ in1, inputs !! 1%nat = Some in1 → relayToArray id in1 = Ok [] →
          aten_reshape_io node inputs = InternalAssert ∧
          aten_reshape node inputs = InternalAssert) ∧
  (∀ cerr e, aten_reshape_io node inputs = Ok (cerr, e) →
             aten_reshape node inputs = Ok e).
Proof.
  split; [|split].
  - intros cerr e. unfold aten_reshape_io. split.
    + intros H.
      apply bind_Ok in H as (shape & H1 & H).
      apply bind_Ok in H1 as (in1 & H1 & Hshape).
      apply bind_Ok in H as (? & Hlen & H).
      apply bind_Ok in H as (first & Hfirst & H).
      apply bind_Ok in H as (in0 & H0 & H).
      apply at_Ok in H0, H1, Hfirst. apply mret_inj in H.
      destruct shape as [|d ds]; [discriminate Hfirst|].
      injection Hfirst as <-. injection H as <- <-.
      exists in0, in1, d, ds. repeat (split; [assumption || reflexivity|]).
      destruct (decide (d = -1)) as [->|Hne]; [reflexivity|].
      rewrite bool_decide_eq_true_2 by assumption. reflexivity.
    + intros (in0 & in1 & d & ds & H0 & H1 & Hshape & -> & ->).
      unfold at_. rewrite H0, H1. simpl. rewrite Hshape. simpl.
      destruct (decide (d = -1)) as [->|Hne]; [reflexivity|].
      rewrite bool_decide_eq_true_2 by assumption. reflexivity.
  - intros in1 H1 Hshape. unfold aten_reshape, aten_reshape_io, at_.
    rewrite H1. simpl. rewrite Hshape. split; reflexivity.
  - intros cerr e H. unfold aten_reshape. rewrite H. reflexivity.
Qed.

Lemma aten_reshape_warns_witness :
  let node := {| kind := "aten::reshape"; inputs_ := []; outputs := [] |} in
  aten_reshape_io node [Var "x" NullType; int_tuple [-1; 4]] =
    Ok ([], Call "reshape" [Var "x" NullType]
              (AttrsReshape {| newshape := [-1; 4]; reverse := false |})) ∧
  aten_reshape_io node [Var "x" NullType; int_tuple [2; -1]] =
    Ok ([reshape_warning],
        Call "reshape" [Var "x" NullType]
          (AttrsReshape {| newshape := [2; -1]; reverse := false |})) ∧
  aten_reshape node [Var "x" NullType; int_tuple []] = InternalAssert.
Proof.
  split; [|split].
  - apply aten_reshape_warns. do 4 eexists.
    repeat (split; [reflexivity|]). reflexivity.
  - apply aten_reshape_warns. do 4 eexists.
    repeat (split; [reflexivity|]). reflexivity.
  - apply (proj1 (proj2 (aten_reshape_warns
             {| kind := "aten::reshape"; inputs_ := []; outputs := [] |}
             [Var "x" NullType; int_tuple []])) (int_tuple [])); reflexivity.
Defined.

(** ** Linear *)

Lemma aten_linear_Ok node inputs e :
  aten_linear node inputs = Ok e ↔
  ∃ v in0 in1 in2 none2,
    inputs_ node !! 0%nat = Some v ∧
    (∀ n_dim, type v = DimensionedTensorType n_dim → n_dim = 2) ∧
    inputs !! 0%nat = Some in0 ∧ inputs !! 1%nat = Some in1 ∧
    inputs !! 2%nat = Some in2 ∧
    relayIsNone in2 = Ok none2 ∧
    e = if none2 : bool
        then Call "nn.dense" [in0; in1] AttrsDense
        else Call "nn.bias_add" [Call "nn.dense" [in0; in1] AttrsDense; in2]
               (AttrsBiasAdd 1).
Proof.
  unfold aten_linear, input. split.
  - intros H.
    apply bind_Ok in H as (v & Hv & H).
    destruct (inputs_ node !! 0%nat) as [v'|] eqn:Hnode; [|discriminate Hv].
    injection Hv as ->.
    apply bind_Ok in H as (? & Hrank & H).
    apply bind_Ok in H as (in0 & H0 & H).
    apply bind_Ok in H as (in1 & H1 & H).
    apply bind_Ok in H as (none2 & H2 & H).
    apply bind_Ok in H2 as (in2 & H2 & Hnone).
    apply at_Ok in H0, H1, H2.
    exists v, in0, in1, in2, none2.
    split; [reflexivity|]. split.
    { intros n_dim Hty. rewrite Hty in Hrank.
      apply TORCH_CHECK_Ok, bool_decide_eq_true in Hrank. exact Hrank. }
    repeat (split; [assumption|]).
    destruct none2; simpl in H.
    + apply mret_inj in H. congruence.
    + apply bind_Ok in H as (in2' & H2' & H). apply at_Ok in H2'.
      apply mret_inj in H. congruence.
  - intros (v & in0 & in1 & in2 & none2 & Hv & Hrank & H0 & H1 & H2 & Hnone & ->).
    rewrite Hv. simpl.
    assert (Hcheck :
      match type v with
      | DimensionedTensorType n_dim =>
          TORCH_CHECK (bool_decide (n_dim = 2))
            "WARNING: relay does not support dense operation on inputs more than 2 dim"
      | OtherJitType => mret tt
      end = Ok tt).
    { destruct (type v) as [n_dim|]; [|reflexivity].
      rewrite (Hrank n_dim eq_refl). reflexivity. }
    rewrite Hcheck. unfold at_. rewrite H0, H1, H2. simpl. rewrite Hnone. simpl.
    destruct none2; reflexivity.
Qed.

(** X11: [aten::linear] looks at the node's first input before anything
    else: a node without inputs raises the range error of the checked
    access, and a declared tensor rank other than 2 is a reported error,
    whatever the expressions are.  With the rank unknown or 2, the rule
    returns exactly when inputs 0 to 2 exist and the none test on input 2
    returns; the result is [nn.dense] of inputs 0 and 1, under [nn.bias_add]
    (axis 1) with input 2 exactly when input 2 is not none. *)
Theorem aten_linear_rank_and_bias node inputs :
  (inputs_ node = [] → aten_linear node inputs = OutOfRange) ∧
  (∀ v n_dim, inputs_ node !! 0%nat = Some v →
     type v = DimensionedTensorType n_dim → n_dim ≠ 2 →
     aten_linear node inputs =
       CheckFailed
         "WARNING: relay does not support dense operation on inputs more than 2 dim") ∧
  (∀ e, aten_linear node inputs = Ok e ↔
     ∃ v in0 in1 in2 none2,
       inputs_ node !! 0%nat = Some v ∧
       (∀ n_dim, type v = DimensionedTensorType n_dim → n_dim = 2) ∧
       inputs !! 0%nat = Some in0 ∧ inputs !! 1%nat = Some in1 ∧
       inputs !! 2%nat = Some in2 ∧
       relayIsNone in2 = Ok none2 ∧
       e = if none2 : bool
           then Call "nn.dense" [in0; in1] AttrsDense
           else Call "nn.bias_add" [Call "nn.dense" [in0; in1] AttrsDense; in2]
                  (AttrsBiasAdd 1)).
Proof.
  split; [|split].
  - intros Hnil. unfold aten_linear, input. rewrite Hnil. reflexivity.
  - intros v n_dim Hv Hty Hne. unfold aten_linear, input. rewrite Hv. simpl.
    rewrite Hty. rewrite (bool_decide_eq_false_2 _ Hne). reflexivity.
  - intros e. apply aten_linear_Ok.
Qed.

Lemma aten_linear_rank_and_bias_witness :
  let ins bias := [Var "x" NullType; Var "w" NullType; bias] in
  aten_linear {| kind := "aten::linear"; inputs_ := []; outputs := [] |}
    (ins (Var "b" NullType)) = OutOfRange ∧
  aten_linear (linear_node (DimensionedTensorType 3)) (ins (Var "b" NullType)) =
    CheckFailed
      "WARNING: relay does not support dense operation on inputs more than 2 dim" ∧
  aten_linear (linear_node (DimensionedTensorType 2)) (ins (Var "b" NullType)) =
    Ok (Call "nn.bias_add"
          [Call "nn.dense" [Var "x" NullType; Var "w" NullType] AttrsDense;
           Var "b" NullType] (AttrsBiasAdd 1)) ∧
  aten_linear (linear_node OtherJitType) (ins (uint64_scalar getNoneSentinel)) =
    Ok (Call "nn.dense" [Var "x" NullType; Var "w" NullType] AttrsDense).
Proof.
  split; [|split; [|split]].
  - apply aten_linear_rank_and_bias. reflexivity.
  - apply (proj1 (proj2 (aten_linear_rank_and_bias
             (linear_node (DimensionedTensorType 3))
             [Var "x" NullType; Var "w" NullType; Var "b" NullType]))
             {| type := DimensionedTensorType 3 |} 3); [reflexivity|reflexivity|lia].
  - apply aten_linear_rank_and_bias.
    exists {| type := DimensionedTensorType 2 |}. do 3 eexists. exists false.
    split; [reflexivity|]. split; [intros n [= <-]; reflexivity|].
    repeat (split; [reflexivity|]). reflexivity.
  - apply aten_linear_rank_and_bias.
    exists {| type := OtherJitType |}. do 3 eexists. exists true.
    split; [reflexivity|]. split; [intros n Hn; discriminate Hn|].
    repeat (split; [reflexivity|]). reflexivity.
Defined.

(** ** Bias: convolution against linear *)

(** X12: the two rules with an optional bias do not agree on what counts
    as absent.  The convolution rule leaves out every bias that is a
    constant; the linear rule leaves out only the none sentinel.  So for a
    constant on which the none test answers false (a constant tensor, or a
    scalar with another bit pattern) a convolution that returns is the bare
    convolution call, while a linear that returns adds that constant with
    [nn.bias_add]. *)
Theorem constant_bias_dropped_by_convolution_kept_by_linear c :
  relayIsNone (Constant c) = Ok false →
  (∀ node inputs e,
     inputs !! 2%nat = Some (Constant c) →
     aten__convolution node inputs = Ok e →
     ∃ op args attrs, e = Call op args (AttrsConv2D attrs)) ∧
  (∀ node inputs e,
     inputs !! 2%nat = Some (Constant c) →
     aten_linear node inputs = Ok e →
     ∃ dense, e = Call "nn.bias_add" [dense; Constant c] (AttrsBiasAdd 1)).
Proof.
  intros Hnone. split.
  - intros node inputs e H2 H.
    apply aten__convolution_inv in H
      as (in0 & in1 & in2 & op & attrs & _ & _ & H2' & _ & _ & ->).
    assert (in2 = Constant c) by congruence. subst in2. eauto.
  - intros node inputs e H2 H.
    apply aten_linear_Ok in H
      as (v & in0 & in1 & in2 & none2 & _ & _ & _ & _ & H2' & Hn & ->).
    assert (in2 = Constant c) by congruence. subst in2.
    assert (none2 = false) by congruence. subst none2. eauto.
Qed.

Lemma constant_bias_dropped_by_convolution_kept_by_linear_witness :
  (∃ op args attrs,
     Call "nn.conv2d" [Var "x" NullType; Constant (scalar_of "float32" 4 0)]
       (AttrsConv2D
          {| conv_strides := [IntImm 1; IntImm 1];
             conv_padding := [IntImm 0; IntImm 0];
             conv_dilation := [IntImm 1; IntImm 1]; conv_groups := 1;
             conv_kernel_size := None;
             conv_data_layout := "NCHW"; conv_kernel_layout := "OIHW" |}) =
     Call op args (AttrsConv2D attrs)) ∧
  (∃ dense,
     Call "nn.bias_add"
       [Call "nn.dense" [Var "x" NullType; Var "w" NullType] AttrsDense;
        Constant bias_tensor] (AttrsBiasAdd 1) =
     Call "nn.bias_add" [dense; Constant bias_tensor] (AttrsBiasAdd 1)).
Proof.
  destruct (constant_bias_dropped_by_convolution_kept_by_linear bias_tensor eq_refl)
    as [Hconv Hlin].
  split.
  - apply (Hconv {| kind := "aten::_convolution"; inputs_ := []; outputs := [] |}
             [Var "x" NullType; Constant (scalar_of "float32" 4 0);
              Constant bias_tensor;
              int_tuple [1; 1]; int_tuple [0; 0]; int_tuple [1; 1];
              bool_scalar false; int_tuple [0; 0]; int32_scalar 1]);
      [reflexivity|vm_compute; reflexivity].
  - apply (Hlin (linear_node OtherJitType)
             [Var "x" NullType; Var "w" NullType; Constant bias_tensor]);
      [reflexivity|vm_compute; reflexivity].
Defined.

(** ** Inputs that are never read *)

(** X13: what the rules do not look at.  The convolution rule reads
    inputs 0 to 6 and 8 only, so the output padding (input 7) and everything
    from input 9 on have no effect; the max-pooling rule reads inputs 0 to 3
    and 5 only, so the dilation (input 4) has no effect; the batch-norm rule,
    given nine inputs, does not read the momentum (input 6) or input 8; and
    of the node only batch-norm's output count matters to these three. *)
Theorem unread_inputs_ignored :
  (∀ node node' inputs inputs',
     (∀ i, i ∈ [0; 1; 2; 3; 4; 5; 6; 8]%nat → inputs !! i = inputs' !! i) →
     aten__convolution node inputs = aten__convolution node' inputs') ∧
  (∀ node node' inputs inputs',
     (∀ i, i ∈ [0; 1; 2; 3; 5]%nat → inputs !! i = inputs' !! i) →
     aten_max_pool2d node inputs = aten_max_pool2d node' inputs') ∧
  (∀ node node' in0 in1 in2 in3 in4 in5 in6 in7 in8 in6' in8',
     length (outputs node) = length (outputs node') →
     aten_batch_norm node [in0; in1; in2; in3; in4; in5; in6; in7; in8] =
     aten_batch_norm node' [in0; in1; in2; in3; in4; in5; in6'; in7; in8']).
Proof.
  split; [|split].
  - intros node node' inputs inputs' Hsame.
    unfold aten__convolution, at_.
    rewrite (Hsame 0%nat), (Hsame 1%nat), (Hsame 2%nat), (Hsame 3%nat),
      (Hsame 4%nat), (Hsame 5%nat), (Hsame 6%nat), (Hsame 8%nat)
      by (refine (bool_decide_unpack _ _); vm_compute; exact I).
    reflexivity.
  - intros node node' inputs inputs' Hsame.
    unfold aten_max_pool2d, at_.
    rewrite (Hsame 0%nat), (Hsame 1%nat), (Hsame 2%nat), (Hsame 3%nat),
      (Hsame 5%nat)
      by (refine (bool_decide_unpack _ _); vm_compute; exact I).
    reflexivity.
  - intros node node' in0 in1 in2 in3 in4 in5 in6 in7 in8 in6' in8' Hout.
    unfold aten_batch_norm, at_. simpl. rewrite Hout. reflexivity.
Qed.

Lemma unread_inputs_ignored_witness :
  let node := {| kind := "aten::_convolution"; inputs_ := []; outputs := [] |} in
  let conv_inputs output_padding :=
    [Var "x" NullType; Constant (scalar_of "float32" 4 0); Var "b" NullType;
     int_tuple [1; 1]; int_tuple [0; 0]; int_tuple [1; 1];
     bool_scalar true; output_padding; int32_scalar 1] in
  aten__convolution node (conv_inputs (int_tuple [0; 0])) =
  aten__convolution node (conv_inputs (int_tuple [1; 1])) ∧
  aten_max_pool2d node (max_pool2d_inputs []) =
  aten_max_pool2d node
    [Var "x" NullType; int_tuple [3; 3]; int_tuple []; int_tuple [0; 0];
     int_tuple [2; 2]; bool_scalar false].
Proof.
  destruct unread_inputs_ignored as (Hconv & Hpool & _).
  split.
  - apply Hconv. intros i Hi.
    repeat (apply elem_of_cons in Hi as [->|Hi]; [reflexivity|]).
    apply elem_of_nil in Hi. destruct Hi.
  - apply Hpool. intros i Hi.
    repeat (apply elem_of_cons in Hi as [->|Hi]; [reflexivity|]).
    apply elem_of_nil in Hi. destruct Hi.
Defined.

(** ** Threshold: the failure classes *)

(** X14: how [aten::threshold_] fails before it compares anything.  The
    none tests run first, in order: the first of the three inputs on which
    the test answers true makes the rule fail a [TORCH_CHECK] with an empty
    message.  With the three tests answering false, a threshold (input 1)
    that is not a constant fails the fatal assertion of the scalar reader,
    not a [TORCH_CHECK]. *)
Theorem aten_threshold__failure_classes node inputs in0 in1 in2 :
  inputs !! 0%nat = Some in0 → inputs !! 1%nat = Some in1 →
  inputs !! 2%nat = Some in2 →
  (relayIsNone in0 = Ok true → aten_threshold_ node inputs = CheckFailed "") ∧
  (relayIsNone in0 = Ok false → relayIsNone in1 = Ok true →
   aten_threshold_ node inputs = CheckFailed "") ∧
  (relayIsNone in0 = Ok false → relayIsNone in1 = Ok false →
   relayIsNone in2 = Ok true →
   aten_threshold_ node inputs = CheckFailed "") ∧
  (relayIsNone in0 = Ok false → relayIsNone in2 = Ok false →
   isConstant in1 = false →
   aten_threshold_ node inputs = InternalAssert).
Proof.
  intros H0 H1 H2.
  unfold aten_threshold_, at_. rewrite H0, H1, H2. simpl deref.
  cbn [mbind result_bind].
  split; [|split; [|split]].
  - intros ->. reflexivity.
  - intros -> ->. reflexivity.
  - intros -> -> ->. reflexivity.
  - intros -> Hn2 Hc. rewrite (relayIsNone_not_constant in1 Hc), Hn2.
    cbn [mbind result_bind TORCH_CHECK negb].
    rewrite (relayToConstant_assert as_float in1); [reflexivity|].
    intros c ->. discriminate Hc.
Qed.

Lemma aten_threshold__failure_classes_witness :
  aten_threshold_ threshold_node
    [Var "x" NullType; uint64_scalar getNoneSentinel; float32_scalar 0] =
    CheckFailed "" ∧
  aten_threshold_ threshold_node
    [Var "x" NullType; Var "t" NullType; Var "v" NullType] = InternalAssert.
Proof.
  split.
  - destruct (aten_threshold__failure_classes threshold_node
                [Var "x" NullType; uint64_scalar getNoneSentinel; float32_scalar 0]
                (Var "x" NullType) (uint64_scalar getNoneSentinel) (float32_scalar 0)
                eq_refl eq_refl eq_refl) as (_ & Hnone1 & _ & _).
    apply Hnone1; reflexivity.
  - destruct (aten_threshold__failure_classes threshold_node
                [Var "x" NullType; Var "t" NullType; Var "v" NullType]
                (Var "x" NullType) (Var "t" NullType) (Var "v" NullType)
                eq_refl eq_refl eq_refl) as (_ & _ & _ & Hvar).
    apply Hvar; reflexivity.
Defined.

(** ** Adaptive average pooling *)

(** X15: [aten::adaptive_avg_pool2d] returns exactly when inputs 0 and 1
    exist and input 1 decodes; the result is
    [contrib.adaptive_avg_pool2d] of input 0 with the decoded output size
    and layout NCHW.  Nothing is defaulted or checked: an empty output size
    is passed on as it is. *)
Theorem aten_adaptive_avg_pool2d_output_size node inputs e :
  aten_adaptive_avg_pool2d node inputs = Ok e ↔
  ∃ in0 in1 output_size,
    inputs !! 0%nat = Some in0 ∧ inputs !! 1%nat = Some in1 ∧
    relayToArray IntImm in1 = Ok output_size ∧
    e = Call "contrib.adaptive_avg_pool2d" [in0]
          (AttrsAdaptivePool2D
             {| adaptive_output_size := output_size; adaptive_layout := "NCHW" |}).
Proof.
  unfold aten_adaptive_avg_pool2d. split.
  - intros H.
    apply bind_Ok in H as (output_size & H1 & H).
    apply bind_Ok in H1 as (in1 & H1 & Hsize).
    apply bind_Ok in H as (in0 & H0 & H).
    apply at_Ok in H0, H1. apply mret_inj in H. subst e. eauto 10.
  - intros (in0 & in1 & output_size & H0 & H1 & Hsize & ->).
    unfold at_. rewrite H0, H1. simpl. rewrite Hsize. reflexivity.
Qed.

Lemma aten_adaptive_avg_pool2d_output_size_witness :
  let node := {| kind := "aten::adaptive_avg_pool2d"; inputs_ := []; outputs := [] |} in
  aten_adaptive_avg_pool2d node [Var "x" NullType; int_tuple [7; 7]] =
    Ok (Call "contrib.adaptive_avg_pool2d" [Var "x" NullType]
          (AttrsAdaptivePool2D
             {| adaptive_output_size := [IntImm 7; IntImm 7];
                adaptive_layout := "NCHW" |})) ∧
  aten_adaptive_avg_pool2d node [Var "x" NullType; int_tuple []] =
    Ok (Call "contrib.adaptive_avg_pool2d" [Var "x" NullType]
          (AttrsAdaptivePool2D
             {| adaptive_output_size := []; adaptive_layout := "NCHW" |})).
Proof.
  split; apply aten_adaptive_avg_pool2d_output_size; do 3 eexists;
    repeat (split; [reflexivity|]); reflexivity.
Defined.

(** ** Lowering a convolution followed by a ReLU *)

Lemma reg_lookup_sym s rule :
  {| sym := s; fn := rule; name := "" |} ∈ reg_ops ∨
  {| sym := s; fn := rule; name := "relu" |} ∈ reg_ops →
  getTVMOperatorMap reg !! s = Some rule.
Proof.
  intros [Hin|Hin];
    apply (register_NoDup_lookup reg_ops _ empty_process reg_ops_NoDup Hin).
Qed.

(** X16: lowering node by node.  When a convolution node whose bias
    (input 2) is a constant has been lowered by [getOperator], lowering a
    ReLU node on the result gives [nn.relu] applied to the convolution call
    itself: no [nn.bias_add] comes in between. *)
Theorem conv_then_relu conv_node relu_node inputs bias conv :
  kind conv_node = "aten::_convolution" →
  kind relu_node = "aten::relu" →
  inputs !! 2%nat = Some bias → isConstant bias = true →
  getOperator reg conv_node inputs = Ok conv →
  ∃ op in0 in1 attrs,
    (op = "nn.conv2d" ∨ op = "nn.conv2d_transpose") ∧
    inputs !! 0%nat = Some in0 ∧ inputs !! 1%nat = Some in1 ∧
    conv = Call op [in0; in1] (AttrsConv2D attrs) ∧
    getOperator reg relu_node [conv] = Ok (Call "nn.relu" [conv] NullAttrs).
Proof.
  intros Hconv Hrelu H2 Hconst H.
  assert (Hc : getTVMOperatorMap reg !! kind conv_node = Some aten__convolution)
    by (rewrite Hconv; apply reg_lookup_sym; left; unfold reg_ops;
        do 2 right; left).
  assert (Hr : getTVMOperatorMap reg !! kind relu_node = Some aten_relu)
    by (rewrite Hrelu; apply reg_lookup_sym; right; unfold reg_ops;
        do 5 right; left).
  rewrite (proj2 (getOperator_lookup reg conv_node inputs _ Hc)) in H.
  apply aten__convolution_inv in H
    as (in0 & in1 & in2 & op & attrs & H0 & H1 & H2' & Hop & _ & ->).
  assert (in2 = bias) by congruence. subst in2. rewrite Hconst.
  exists op, in0, in1, attrs. repeat (split; [assumption || reflexivity|]).
  rewrite (proj2 (getOperator_lookup reg relu_node _ _ Hr)). reflexivity.
Qed.

Lemma conv_then_relu_witness :
  let conv_node := {| kind := "aten::_convolution"; inputs_ := []; outputs := [] |} in
  let relu_node := {| kind := "aten::relu"; inputs_ := []; outputs := [] |} in
  ∃ conv,
    getOperator reg conv_node
      (weighted_conv_inputs (Constant (scalar_of "float32" 4 0))) = Ok conv ∧
    getOperator reg relu_node [conv] = Ok (Call "nn.relu" [conv] NullAttrs).
Proof.
  assert (Hrun : ∃ conv,
            getOperator reg
              {| kind := "aten::_convolution"; inputs_ := []; outputs := [] |}
              (weighted_conv_inputs (Constant (scalar_of "float32" 4 0))) = Ok conv)
    by (eexists; vm_compute; reflexivity).
  destruct Hrun as [conv Hrun]. exists conv. split; [exact Hrun|].
  destruct (conv_then_relu
              {| kind := "aten::_convolution"; inputs_ := []; outputs := [] |}
              {| kind := "aten::relu"; inputs_ := []; outputs := [] |}
              (weighted_conv_inputs (Constant (scalar_of "float32" 4 0)))
              (uint64_scalar getNoneSentinel) conv
              eq_refl eq_refl eq_refl eq_refl Hrun)
    as (op & in0 & in1 & attrs & _ & _ & _ & _ & Hrelu).
  exact Hrelu.
Defined.

(** ** Which rules report errors *)

Create HintDb reported.

Lemma is_reported_bind {A B} (m : result A) (f : A → result B) :
  is_reported m = false → (∀ a, is_reported (f a) = false) →
  is_reported (m ≫= f) = false.
Proof. intros Hm Hf. destruct m; try discriminate Hm; simpl; auto. Qed.

Lemma is_reported_deref {A} (o : option A) : is_reported (deref o) = false.
Proof. destruct o; reflexivity. Qed.

Lemma is_reported_at {A} (v : list A) i : is_reported (at_ v i) = false.
Proof. apply is_reported_deref. Qed.

Lemma is_reported_assert cond : is_reported (TORCH_INTERNAL_ASSERT cond) = false.
Proof. destruct cond; reflexivity. Qed.

Lemma is_reported_mret {A} (a : A) : is_reported (mret a : result A) = false.
Proof. reflexivity. Qed.

#[local] Hint Resolve is_reported_deref is_reported_at is_reported_assert
  is_reported_mret : reported.

(** Walks through a rule, one step of the monad at a time. *)
Ltac never_reports :=
  lazymatch goal with
  | |- is_reported (_ ≫= _) = false =>
      apply is_reported_bind; [never_reports|intros; never_reports]
  | |- is_reported (_ <$> _) = false =>
      apply is_reported_bind; [never_reports|intros; never_reports]
  | |- is_reported (if ?b then _ else _) = false => destruct b; never_reports
  | |- is_reported (match ?x with _ => _ end) = false => destruct x; never_reports
  | |- _ => first [assumption | solve [auto with reported] | reflexivity]
  end.

Lemma is_reported_relayToConstant {T} (rd : list Byte.byte → option T) e :
  is_reported (relayToConstant rd e) = false.
Proof. unfold relayToConstant. never_reports. Qed.

#[local] Hint Resolve is_reported_relayToConstant : reported.

Lemma is_reported_relayToArray {T} (of_int : Z → T) e :
  is_reported (relayToArray of_int e) = false.
Proof.
  unfold relayToArray. apply is_reported_bind; [auto with reported|].
  intros fields. induction fields as [|f fields IH]; [reflexivity|].
  simpl. never_reports.
Qed.

Lemma is_reported_kernel_size_of weight : is_reported (kernel_size_of weight) = false.
Proof. unfold kernel_size_of. never_reports. Qed.

#[local] Hint Resolve is_reported_relayToArray is_reported_kernel_size_of : reported.

(** X17: only three rules ever report an error to the user.  Whatever the
    node and the inputs, when [getOperator], on the table of this file, fails
    a [TORCH_CHECK], the node is a batch-norm, a threshold or a linear node;
    every other failure of a lowering is a fatal assertion or undefined
    behaviour (or, for linear, the range error). *)
Theorem reported_errors_come_from node inputs msg :
  getOperator reg node inputs = CheckFailed msg →
  kind node ∈ ["aten::batch_norm"; "aten::threshold_"; "aten::linear"].
Proof.
  intros H.
  destruct (getTVMOperatorMap reg !! kind node) as [rule|] eqn:Hrule.
  - rewrite (proj2 (getOperator_lookup reg node inputs rule Hrule)) in H.
    apply (RegisterTVMOperator_lookup reg_ops empty_process) in Hrule
      as [(op & Hin & Hsym & <-)|Hempty].
    + rewrite <- Hsym. clear Hsym.
      assert (Hrep : is_reported (fn op node inputs) = true)
        by (rewrite H; reflexivity).
      clear H. unfold reg_ops in Hin.
      repeat (apply elem_of_cons in Hin as [->|Hin]);
        try (apply elem_of_nil in Hin; destruct Hin);
        cbn [sym fn] in *;
        try (refine (bool_decide_unpack _ _); vm_compute; exact I);
        exfalso; revert Hrep; apply not_true_iff_false.
      * unfold aten_add. never_reports.
      * unfold aten_add_. never_reports.
      * unfold aten__convolution. never_reports.
      * unfold aten_relu_. never_reports.
      * unfold aten_relu. never_reports.
      * unfold aten_mul. never_reports.
      * unfold aten_avg_pool2d. never_reports.
      * unfold aten_adaptive_avg_pool2d. never_reports.
      * unfold aten_max_pool2d. never_reports.
      * unfold aten_reshape, aten_reshape_io. never_reports.
    + unfold empty_process in Hempty. cbn [getTVMOperatorMap] in Hempty.
      rewrite lookup_empty in Hempty. discriminate Hempty.
  - unfold getOperator, isSupported in H. rewrite Hrule in H. discriminate H.
Qed.

Lemma reported_errors_come_from_witness :
  "aten::linear" ∈ ["aten::batch_norm"; "aten::threshold_"; "aten::linear"].
Proof.
  apply (reported_errors_come_from (linear_node (DimensionedTensorType 3))
           [Var "x" NullType; Var "w" NullType; Var "b" NullType]
           "WARNING: relay does not support dense operation on inputs more than 2 dim").
  vm_compute. reflexivity.
Defined.
